(** * TM1637 seven-segment display driver (tm1637.cpp / tm1637.hpp)

    A shallow embedding of the driver: the segment encoder
    ([encode_digit], [encode_char], [encode_string]) and the two-wire
    protocol engine ([_start], [_stop], [_write_byte], the three chip
    commands, [brightness], [write], [hex], [number], [show]).

    Machine integers are [Z] with the wrap-around of each C++ type written
    out; [std::vector<uint8_t>] is [list Z]; [std::string] is [string],
    walked as its list of characters.  Calls into the Pico SDK ([gpio_put],
    [sleep_us], ...) are recorded, in order, on an event log. *)

From Stdlib Require Import String Ascii.
From Stdlib Require Import ZArith NArith List Bool Lia Permutation.
From Stdlib Require DecimalString HexadecimalString.
From Stdlib Require DecimalPos DecimalN HexadecimalPos HexadecimalN.
Import ListNotations.
Open Scope Z_scope.

Set Implicit Arguments.

(* ================================================================== *)
(** * The C++ fragment the driver relies on                            *)
(* ================================================================== *)

Module Cxx.

(** Conversions to the fixed-width unsigned types. *)
Definition uint8_t (z : Z) : Z := z mod 2 ^ 8.
Definition uint16_t (z : Z) : Z := z mod 2 ^ 16.
Definition uint32_t (z : Z) : Z := z mod 2 ^ 32.

(** [size_t] on the RP2040 (the target of [pico/stdlib.h]) is a 32-bit
    unsigned integer; an [int] operand is converted to it, so mixed
    arithmetic is taken modulo [2 ^ 32]. *)
Definition size_t (z : Z) : Z := z mod 2 ^ 32.

(** How a call ends: normally, by the [std::out_of_range] that
    [vector::at] throws, or in undefined behaviour (a store through
    [vector::operator[]] past the end of the vector). *)
Inductive outcome (A : Type) : Type :=
| Ok (a : A)
| OutOfRange
| Undefined.
Arguments OutOfRange {A}.
Arguments Undefined {A}.

(** [v.at(n)], with [n] already a [size_t]. *)
Definition at_ (v : list Z) (n : Z) : outcome Z :=
  if (0 <=? n) && (n <? Z.of_nat (length v))
  then Ok (nth (Z.to_nat n) v 0)
  else OutOfRange.

(** Overwrite slot [n] of a vector; callers check the bound first. *)
Fixpoint store (v : list Z) (n : nat) (x : Z) : list Z :=
  match v, n with
  | [], _ => []
  | _ :: t, O => x :: t
  | h :: t, S k => h :: store t k x
  end.

(** [v[n] = x]: defined only inside the vector. *)
Definition subscript_assign (v : list Z) (n : nat) (x : Z) : outcome (list Z) :=
  if (n <? length v)%nat then Ok (store v n x) else Undefined.

(** [v.at(n) |= x]. *)
Definition at_or_assign (v : list Z) (n : nat) (x : Z) : outcome (list Z) :=
  match at_ v (Z.of_nat n) with
  | Ok old => Ok (store v n (uint8_t (Z.lor old x)))
  | OutOfRange => OutOfRange
  | Undefined => Undefined
  end.

(** [v.resize(d)] on a freshly constructed vector: [d] zero bytes. *)
Definition resize_new (d : nat) : list Z := repeat 0 d.

(** [ss << std::setw(w) << text]: right-justified, filled with spaces,
    never truncated. *)
Definition setw (w : nat) (text : string) : string :=
  (string_of_list_ascii (repeat " "%char (w - String.length text)) ++ text)%string.

(** [ss << std::dec << n] and [ss << std::hex << n] for unsigned [n]. *)
Definition put_dec (n : Z) : string :=
  DecimalString.NilZero.string_of_uint (N.to_uint (Z.to_N n)).
Definition put_hex (n : Z) : string :=
  HexadecimalString.NilZero.string_of_uint (N.to_hex_uint (Z.to_N n)).

End Cxx.
Import Cxx.

(* ================================================================== *)
(** * Constants and the segment table                                  *)
(* ================================================================== *)

Definition TM1637_CMD1 : Z := 0x40.
Definition TM1637_CMD2 : Z := 0xC0.
Definition TM1637_CMD3 : Z := 0x80.
Definition TM1637_DSP_ON : Z := 0x08.
Definition TM1637_DELAY : Z := 10.
Definition TM1637_MSB : Z := 0x80.

(** 0 - 9, a - z, blank, dash, star *)
Definition _SEGMENTS : list Z :=
  [ 0x3F; 0x06; 0x5B; 0x4F; 0x66; 0x6D; 0x7D; 0x07; 0x7F; 0x6F;
    0x77; 0x7C; 0x39; 0x5E; 0x79; 0x71; 0x3D; 0x76; 0x06; 0x1E;
    0x76; 0x38; 0x55; 0x54; 0x5C; 0x73; 0x67; 0x50; 0x6D; 0x78;
    0x3E; 0x1C; 0x2A; 0x76; 0x6E; 0x5B;
    0x00; 0x40; 0x63 ].

(** [_SEGMENTS[i]]; every index the encoder computes is inside the table. *)
Definition segment_at (i : Z) : Z := nth (Z.to_nat i) _SEGMENTS 0.

Definition Segments : Type := list Z.

(* ================================================================== *)
(** * SegmentEncoder                                                   *)
(* ================================================================== *)

(** The value of a [char] in a comparison.  [char] is unsigned on the ARM
    target; with a signed [char] the codes above 127 would be negative and
    fail every range test below just the same. *)
Definition char_code (ch : ascii) : Z := Z.of_N (N_of_ascii ch).

Definition encode_digit (digit : Z) : Z :=
  segment_at (Z.land (uint8_t digit) 0x0f).

Definition encode_char (ch : ascii) : Z :=
  let c := char_code ch in
  if c =? 32 then segment_at 36
  else if c =? 42 then segment_at 38
  else if c =? 45 then segment_at 37
  else if (65 <=? c) && (c <=? 90) then segment_at (c - 55)
  else if (97 <=? c) && (c <=? 122) then segment_at (c - 87)
  else if (48 <=? c) && (c <=? 57) then segment_at (c - 48)
  else segment_at 38.

Definition is_dot (ch : ascii) : bool := char_code ch =? 46.

Definition non_dot (ch : ascii) : bool := negb (is_dot ch).

(** First loop of [encode_string]: the number of characters other than
    ['.']. *)
Fixpoint count_non_dot (str : list ascii) : nat :=
  match str with
  | [] => O
  | ch :: rest => if is_dot ch then count_non_dot rest else S (count_non_dot rest)
  end.

(** Second loop of [encode_string], from the character at hand to the end
    of the string; [j] is the next slot.  [j] never exceeds the length of
    the string, so its [size_t] arithmetic does not wrap. *)
Fixpoint encode_string_fill (str : list ascii) (segments : Segments) (j : nat)
  : outcome Segments :=
  match str with
  | [] => Ok segments
  | ch :: rest =>
      if is_dot ch && (0 <? j)%nat then
        match at_or_assign segments (j - 1) TM1637_MSB with
        | Ok segments' => encode_string_fill rest segments' j
        | OutOfRange => OutOfRange
        | Undefined => Undefined
        end
      else
        match subscript_assign segments j (encode_char ch) with
        | Ok segments' => encode_string_fill rest segments' (j + 1)
        | OutOfRange => OutOfRange
        | Undefined => Undefined
        end
  end.

(** [while (segments.size() < 6) segments.push_back(encode_char(' '))];
    [fuel] bounds the number of turns. *)
Fixpoint encode_string_pad (fuel : nat) (segments : Segments) : Segments :=
  match fuel with
  | O => segments
  | S fuel' =>
      if (length segments <? 6)%nat
      then encode_string_pad fuel' (segments ++ [encode_char " "%char])
      else segments
  end.

Definition encode_chars (str : list ascii) : outcome Segments :=
  let d := count_non_dot str in
  let segments := resize_new d in
  match encode_string_fill str segments 0 with
  | Ok segments' => Ok (encode_string_pad 6 segments')
  | OutOfRange => OutOfRange
  | Undefined => Undefined
  end.

Definition encode_string (str : string) : outcome Segments :=
  encode_chars (list_ascii_of_string str).


(** The three named patterns of the table. *)
Definition blank : Z := segment_at 36.
Definition dash : Z := segment_at 37.
Definition star : Z := segment_at 38.

(** ** The string encoder as the specification words it

    Every character other than ['.'] owns one slot, in order; the slot
    carries the MSB when a ['.'] follows that character directly; a ['.']
    owns no slot.  [encode_string] is compared with this reading below. *)
Definition followed_by_dot (rest : list ascii) : bool :=
  match rest with
  | [] => false
  | ch :: _ => is_dot ch
  end.

Fixpoint glyphs (str : list ascii) : Segments :=
  match str with
  | [] => []
  | ch :: rest =>
      if is_dot ch then glyphs rest
      else (if followed_by_dot rest
            then Z.lor (encode_char ch) TM1637_MSB
            else encode_char ch) :: glyphs rest
  end.

(** Every ['.'] of the string comes after at least one emitted segment;
    [emitted_so_far] counts the segments emitted before [str]. *)
Fixpoint dots_follow_segment (emitted_so_far : nat) (str : list ascii) : bool :=
  match str with
  | [] => true
  | ch :: rest =>
      if is_dot ch
      then (0 <? emitted_so_far)%nat && dots_follow_segment emitted_so_far rest
      else dots_follow_segment (S emitted_so_far) rest
  end.

(** Set the MSB of the last byte of a list. *)
Definition or_last (l : list Z) : list Z :=
  match l with
  | [] => []
  | _ :: _ => removelast l ++ [Z.lor (last l 0) TM1637_MSB]
  end.

(* ================================================================== *)
(** * ProtocolDriver                                                   *)
(* ================================================================== *)

(** The Pico SDK calls the driver makes, as they appear on the log. *)
Inductive sdk_call : Type :=
| gpio_init (pin : Z)
| gpio_set_dir (pin : Z) (out : bool)
| gpio_pull_up (pin : Z)
| gpio_put (pin : Z) (value : bool)
| sleep_us (us : Z).

(** The private members of [class TM1637]. *)
Record TM1637 : Type := mkTM1637 {
  clk_ : Z;
  dio_ : Z;
  brightness_ : Z
}.

(** The driver object together with everything it has done to the pins. *)
Record machine : Type := mkMachine {
  self : TM1637;
  sdk_log : list sdk_call
}.

(** Member functions: state passing over [machine]; a throw or undefined
    behaviour stops the call and keeps the machine as it was then. *)
Definition M (A : Type) : Type := machine -> outcome A * machine.

Definition ret {A : Type} (a : A) : M A := fun m => (Ok a, m).

Definition bind {A B : Type} (c : M A) (k : A -> M B) : M B :=
  fun m =>
    match c m with
    | (Ok a, m') => k a m'
    | (OutOfRange, m') => (OutOfRange, m')
    | (Undefined, m') => (Undefined, m')
    end.

Notation "x <- c ;; k" := (bind c (fun x => k))
  (at level 61, c at next level, right associativity).
Notation "c ;; k" := (bind c (fun _ => k))
  (at level 61, right associativity).

Definition lift {A : Type} (o : outcome A) : M A := fun m => (o, m).

Definition this : M TM1637 := fun m => (Ok (self m), m).

Definition call (e : sdk_call) : M unit :=
  fun m => (Ok tt, mkMachine (self m) (sdk_log m ++ [e])).

Definition set_brightness_ (b : Z) : M unit :=
  fun m =>
    (Ok tt, mkMachine (mkTM1637 (clk_ (self m)) (dio_ (self m)) b) (sdk_log m)).

(** [for (i = start; ...; ++i) body(i)], [count] turns. *)
Fixpoint for_ (count : nat) (i : Z) (body : Z -> M unit) : M unit :=
  match count with
  | O => ret tt
  | S count' => body i ;; for_ count' (i + 1) body
  end.

Definition _start : M unit :=
  d <- this ;;
  call (gpio_put (clk_ d) true) ;;
  call (sleep_us TM1637_DELAY) ;;
  call (gpio_put (dio_ d) true) ;;
  call (sleep_us TM1637_DELAY) ;;
  call (gpio_put (dio_ d) false) ;;
  call (sleep_us TM1637_DELAY) ;;
  call (gpio_put (clk_ d) false) ;;
  call (sleep_us TM1637_DELAY).

Definition _stop : M unit :=
  d <- this ;;
  call (gpio_put (clk_ d) false) ;;
  call (sleep_us TM1637_DELAY) ;;
  call (gpio_put (dio_ d) false) ;;
  call (sleep_us TM1637_DELAY) ;;
  call (gpio_put (clk_ d) true) ;;
  call (sleep_us TM1637_DELAY) ;;
  call (gpio_put (dio_ d) true).

(** [(b >> i) & 1] passed as the [bool] argument of [gpio_put]. *)
Definition bit_of (b i : Z) : bool :=
  negb (Z.land (Z.shiftr b i) 1 =? 0).

Definition _write_byte (b : Z) : M unit :=
  d <- this ;;
  for_ 8 0 (fun i =>
    call (gpio_put (dio_ d) (bit_of b i)) ;;
    call (sleep_us TM1637_DELAY) ;;
    call (gpio_put (clk_ d) true) ;;
    call (sleep_us TM1637_DELAY) ;;
    call (gpio_put (clk_ d) false) ;;
    call (sleep_us TM1637_DELAY)) ;;
  call (gpio_put (clk_ d) false) ;;
  call (sleep_us TM1637_DELAY) ;;
  call (gpio_put (clk_ d) true) ;;
  call (sleep_us TM1637_DELAY) ;;
  call (gpio_put (clk_ d) false) ;;
  call (sleep_us TM1637_DELAY).

Definition _write_data_cmd : M unit :=
  _start ;;
  _write_byte TM1637_CMD1 ;;
  _stop.

Definition _write_dsp_ctrl : M unit :=
  d <- this ;;
  _start ;;
  _write_byte (Z.lor (Z.lor TM1637_CMD3 TM1637_DSP_ON) (brightness_ d)) ;;
  _stop.

(** The constructor, run on a board whose log so far is [log]. *)
Definition TM1637_ctor (clk dio brightness : Z) (log : list sdk_call)
  : outcome unit * machine :=
  let d := mkTM1637 (uint8_t clk) (uint8_t dio) (Z.min 0x07 (uint8_t brightness)) in
  (call (gpio_init (clk_ d)) ;;
   call (gpio_set_dir (clk_ d) true) ;;
   call (gpio_pull_up (clk_ d)) ;;
   call (gpio_init (dio_ d)) ;;
   call (gpio_set_dir (dio_ d) true) ;;
   call (gpio_pull_up (dio_ d)) ;;
   call (gpio_put (clk_ d) false) ;;
   call (gpio_put (dio_ d) false) ;;
   _write_data_cmd ;;
   _write_dsp_ctrl) (mkMachine d log).

Definition brightness (val : Z) : M Z :=
  let val := uint8_t val in
  set_brightness_ (uint8_t (Z.land val 0x07)) ;;
  _write_data_cmd ;;
  _write_dsp_ctrl ;;
  d <- this ;;
  ret (brightness_ d).

(** [uint8_t(i / 3) * 6 + 2 - i]: the product and the sum are [int], the
    difference with the [size_t] [i] is a [size_t]. *)
Definition permuted_index (i : Z) : Z :=
  size_t (uint8_t (i / 3) * 6 + 2 - i).

Definition write (segments : Segments) (pos : Z) : M unit :=
  let pos := Z.min (uint8_t pos) 0x05 in
  _write_data_cmd ;;
  _start ;;
  _write_byte (Z.lor TM1637_CMD2 pos) ;;
  for_ (length segments) 0 (fun i =>
    b <- lift (at_ segments (permuted_index i)) ;;
    _write_byte b) ;;
  _stop ;;
  _write_dsp_ctrl.

Definition hex (val : Z) : M unit :=
  let ss := setw 6 (put_hex (uint16_t val)) in
  segments <- lift (encode_string ss) ;;
  write segments 0.

Definition number (num : Z) : M unit :=
  let ss := setw 6 (put_dec (uint32_t num)) in
  segments <- lift (encode_string ss) ;;
  write segments 0.

Definition show (str : string) (colon : bool) : M unit :=
  segments <- lift (encode_string str) ;;
  write segments 0.

(** ** The wire, as the specification describes it

    Every change of a line is followed by the fixed delay, except the last
    one of a stop condition. *)
Definition start_condition (d : TM1637) : list sdk_call :=
  [ gpio_put (clk_ d) true;  sleep_us 10;
    gpio_put (dio_ d) true;  sleep_us 10;
    gpio_put (dio_ d) false; sleep_us 10;
    gpio_put (clk_ d) false; sleep_us 10 ].

Definition stop_condition (d : TM1637) : list sdk_call :=
  [ gpio_put (clk_ d) false; sleep_us 10;
    gpio_put (dio_ d) false; sleep_us 10;
    gpio_put (clk_ d) true;  sleep_us 10;
    gpio_put (dio_ d) true ].

(** One bit: data line to the bit, then a clock pulse. *)
Definition bit_slot (d : TM1637) (level : bool) : list sdk_call :=
  [ gpio_put (dio_ d) level; sleep_us 10;
    gpio_put (clk_ d) true;  sleep_us 10;
    gpio_put (clk_ d) false; sleep_us 10 ].

(** The extra clock pulse that stands in for the acknowledgment. *)
Definition ack_pulse (d : TM1637) : list sdk_call :=
  [ gpio_put (clk_ d) false; sleep_us 10;
    gpio_put (clk_ d) true;  sleep_us 10;
    gpio_put (clk_ d) false; sleep_us 10 ].

(** A byte: eight bits, least significant first, then the extra pulse. *)
Definition byte_frame (d : TM1637) (b : Z) : list sdk_call :=
  flat_map (fun i => bit_slot d (Z.testbit b (Z.of_nat i))) (seq 0 8)
    ++ ack_pulse d.

Definition wire_bytes (d : TM1637) (bytes : list Z) : list sdk_call :=
  flat_map (byte_frame d) bytes.

Definition data_command (d : TM1637) : list sdk_call :=
  start_condition d ++ byte_frame d 0x40 ++ stop_condition d.

Definition display_control (d : TM1637) : list sdk_call :=
  start_condition d
    ++ byte_frame d (Z.lor (Z.lor 0x80 0x08) (brightness_ d))
    ++ stop_condition d.

(** Appending to the log of a machine. *)
Definition logged (m : machine) (events : list sdk_call) : machine :=
  mkMachine (self m) (sdk_log m ++ events).

(** [runs c d o d' events]: started on the object [d], whatever the log,
    the call [c] ends as [o], leaves the object [d'] and appends exactly
    [events]. *)
Definition runs {A : Type} (c : M A) (d : TM1637) (o : outcome A)
  (d' : TM1637) (events : list sdk_call) : Prop :=
  forall log : list sdk_call,
    c (mkMachine d log) = (o, mkMachine d' (log ++ events)).

(** The index permutation as the specification gives it: turn [i] takes
    the entry at [(i / 3) * 6 + 2 - i]. *)
Definition source_index (i : nat) : nat := (i / 3 * 6 + 2 - i)%nat.

(** The element accesses of the loop of [write], without the wire: the
    bytes read before the loop ends, and whether it ends normally
    ([false]: an access threw). *)
Fixpoint permuted_reads (segments : Segments) (count : nat) (i : Z)
  : list Z * bool :=
  match count with
  | O => ([], true)
  | S count' =>
      match at_ segments (permuted_index i) with
      | Ok b =>
          let (bytes, normal) := permuted_reads segments count' (i + 1) in
          (b :: bytes, normal)
      | OutOfRange => ([], false)
      | Undefined => ([], false)
      end
  end.

(* ================================================================== *)
(** * Vocabulary of the further properties                             *)
(* ================================================================== *)

(** One decimal digit in front of a numeral. *)
Definition dec_digit (a : N) (rest : Decimal.uint) : Decimal.uint :=
  match a with
  | 0%N => Decimal.D0 rest
  | 1%N => Decimal.D1 rest
  | 2%N => Decimal.D2 rest
  | 3%N => Decimal.D3 rest
  | 4%N => Decimal.D4 rest
  | 5%N => Decimal.D5 rest
  | 6%N => Decimal.D6 rest
  | 7%N => Decimal.D7 rest
  | 8%N => Decimal.D8 rest
  | _ => Decimal.D9 rest
  end.

(** The [k] low decimal digits of [n], most significant first. *)
Fixpoint dec_digits (k : nat) (n : N) : list N :=
  match k with
  | O => []
  | S k' => ((n / 10 ^ N.of_nat k') mod 10)%N :: dec_digits k' n
  end.

Definition dec_uint (digits : list N) : Decimal.uint :=
  fold_right dec_digit Decimal.Nil digits.

(** The character of a digit: ['0' + a]. *)
Definition digit_char (a : N) : ascii := ascii_of_N (48 + a).

(** What [number] is to show for [n]: six slots, the decimal digits of [n]
    right-aligned, each as [encode_digit] of the digit, blanks to the left
    of the first digit. *)
Definition number_display (n : Z) : Segments :=
  map (fun i => if (0 <? i) && (n <? 10 ^ i) then blank
                else encode_digit ((n / 10 ^ i) mod 10))
      [5; 4; 3; 2; 1; 0].

(** One hexadecimal digit in front of a numeral. *)
Definition hex_digit (a : N) (rest : Hexadecimal.uint) : Hexadecimal.uint :=
  match a with
  | 0%N => Hexadecimal.D0 rest
  | 1%N => Hexadecimal.D1 rest
  | 2%N => Hexadecimal.D2 rest
  | 3%N => Hexadecimal.D3 rest
  | 4%N => Hexadecimal.D4 rest
  | 5%N => Hexadecimal.D5 rest
  | 6%N => Hexadecimal.D6 rest
  | 7%N => Hexadecimal.D7 rest
  | 8%N => Hexadecimal.D8 rest
  | 9%N => Hexadecimal.D9 rest
  | 10%N => Hexadecimal.Da rest
  | 11%N => Hexadecimal.Db rest
  | 12%N => Hexadecimal.Dc rest
  | 13%N => Hexadecimal.Dd rest
  | 14%N => Hexadecimal.De rest
  | _ => Hexadecimal.Df rest
  end.

(** The [k] low hexadecimal digits of [n], most significant first. *)
Fixpoint hex_digits (k : nat) (n : N) : list N :=
  match k with
  | O => []
  | S k' => ((n / 16 ^ N.of_nat k') mod 16)%N :: hex_digits k' n
  end.

Definition hex_uint (digits : list N) : Hexadecimal.uint :=
  fold_right hex_digit Hexadecimal.Nil digits.

(** The character of a hexadecimal digit, in lower case as [std::hex]
    prints it: ['0' + a] below ten, ['a' + (a - 10)] from ten on. *)
Definition hex_char (a : N) : ascii :=
  if (a <? 10)%N then ascii_of_N (48 + a) else ascii_of_N (87 + a).

(** What [hex] is to show for [n]: six slots, the hexadecimal digits of
    [n] right-aligned, each as [encode_digit] of the digit, blanks to the
    left of the first digit. *)
Definition hex_display (n : Z) : Segments :=
  map (fun i => if (0 <? i) && (n <? 16 ^ i) then blank
                else encode_digit ((n / 16 ^ i) mod 16))
      [5; 4; 3; 2; 1; 0].

(** [toupper] on one character. *)
Definition upper (ch : ascii) : ascii :=
  if (97 <=? char_code ch) && (char_code ch <=? 122)
  then ascii_of_N (N_of_ascii ch - 32)
  else ch.

(** Groups of three entries, each group last entry first. *)
Fixpoint reverse_groups (segments : Segments) : Segments :=
  match segments with
  | a :: b :: c :: rest => c :: b :: a :: reverse_groups rest
  | short => short
  end.





(** The level a pin was last driven to, if it was driven at all. *)
Definition drive (pin : Z) (level : option bool) (e : sdk_call) : option bool :=
  match e with
  | gpio_put p v => if p =? pin then Some v else level
  | _ => level
  end.

Definition line_level (pin : Z) (log : list sdk_call) : option bool :=
  fold_left (drive pin) log None.

(** The microseconds a log asks to wait, in all. *)
Fixpoint total_delay (log : list sdk_call) : Z :=
  match log with
  | [] => 0
  | sleep_us us :: rest => us + total_delay rest
  | _ :: rest => total_delay rest
  end.

(* ================================================================== *)
(** * Facts about the segment encoder                                  *)
(* ================================================================== *)

Section EncodeChar.

(** Every index [encode_char] computes lies inside the 39-entry table,
    and every pattern it returns has the MSB clear. *)
Lemma encode_char_range (ch : ascii) : 0 <= encode_char ch < 128.
Proof.
  destruct ch as [[] [] [] [] [] [] [] []]; vm_compute; split; congruence.
Qed.

Lemma encode_char_space : encode_char " "%char = blank.
Proof. reflexivity. Qed.

Lemma encode_digit_mod_16 (digit : Z) :
  encode_digit digit = segment_at (digit mod 16).
Proof.
  unfold encode_digit, uint8_t.
  change 0x0f with (Z.ones 4). rewrite Z.land_ones by lia.
  change (2 ^ 8) with (2 ^ 4 * 2 ^ 4).
  rewrite Z.rem_mul_r by lia.
  f_equal. rewrite Z.mul_comm, Z.mod_add by lia.
  apply Z.mod_mod. lia.
Qed.

(** X6.  [encode_digit] uses the low four bits of its argument only: it
    returns the table entry at [digit & 0x0f], one of the entries 0 to 15,
    so a value of 16 or more gives the entry of its low four bits. *)
Theorem encode_digit_low_nibble (digit : Z) :
  encode_digit digit = segment_at (Z.land digit 0x0f) /\
  0 <= Z.land digit 0x0f < 16 /\
  encode_digit (digit + 16) = encode_digit digit.
Proof.
  change 0x0f with (Z.ones 4). rewrite Z.land_ones by lia.
  change (2 ^ 4) with 16.
  pose proof (Z.mod_pos_bound digit 16).
  repeat split; try lia.
  - apply encode_digit_mod_16.
  - rewrite !encode_digit_mod_16. f_equal.
    rewrite <- (Z.mul_1_l 16) at 1. apply Z.mod_add. lia.
Qed.

Lemma char_code_range (ch : ascii) : 0 <= char_code ch < 256.
Proof.
  destruct ch as [[] [] [] [] [] [] [] []]; vm_compute; split; congruence.
Qed.

(** C8.  [encode_char] selects the pattern by the range of the character:
    space gives the blank pattern, ['*'] the star pattern, ['-'] the dash
    pattern, an uppercase letter the pattern of its letter (table entries
    10 to 35), a lowercase letter the pattern of the same letter, a digit
    its digit pattern (entries 0 to 9); every other character, ['.']
    among them, gives the star pattern. *)
Theorem encode_char_by_range (ch : ascii) :
  (char_code ch = 32 -> encode_char ch = blank) /\
  (char_code ch = 42 -> encode_char ch = star) /\
  (char_code ch = 45 -> encode_char ch = dash) /\
  (65 <= char_code ch <= 90 ->
     encode_char ch = segment_at (10 + (char_code ch - 65))) /\
  (97 <= char_code ch <= 122 ->
     encode_char ch = segment_at (10 + (char_code ch - 97))) /\
  (forall lower : ascii,
     65 <= char_code ch <= 90 -> char_code lower = char_code ch + 32 ->
     encode_char ch = encode_char lower) /\
  (48 <= char_code ch <= 57 ->
     encode_char ch = segment_at (char_code ch - 48)) /\
  (char_code ch <> 32 -> char_code ch <> 42 -> char_code ch <> 45 ->
   ~ 65 <= char_code ch <= 90 -> ~ 97 <= char_code ch <= 122 ->
   ~ 48 <= char_code ch <= 57 ->
     encode_char ch = star) /\
  encode_char "."%char = star /\
  blank = 0x00 /\ dash = 0x40 /\ star = 0x63.
Proof.
  assert (Hcases : forall c : ascii,
    encode_char c =
      if char_code c =? 32 then blank
      else if char_code c =? 42 then star
      else if char_code c =? 45 then dash
      else if (65 <=? char_code c) && (char_code c <=? 90)
           then segment_at (char_code c - 55)
      else if (97 <=? char_code c) && (char_code c <=? 122)
           then segment_at (char_code c - 87)
      else if (48 <=? char_code c) && (char_code c <=? 57)
           then segment_at (char_code c - 48)
      else star) by reflexivity.
  assert (Hsplit : forall lo hi c : Z,
    (lo <=? c) && (c <=? hi) = true <-> lo <= c <= hi).
  { intros lo hi c. rewrite andb_true_iff, !Z.leb_le. tauto. }
  repeat split; try reflexivity; intros.
  - rewrite Hcases. replace (char_code ch =? 32) with true; [reflexivity|].
    symmetry; apply Z.eqb_eq; assumption.
  - rewrite Hcases.
    destruct (Z.eqb_spec (char_code ch) 32); [lia|].
    replace (char_code ch =? 42) with true; [reflexivity|].
    symmetry; apply Z.eqb_eq; assumption.
  - rewrite Hcases.
    destruct (Z.eqb_spec (char_code ch) 32); [lia|].
    destruct (Z.eqb_spec (char_code ch) 42); [lia|].
    replace (char_code ch =? 45) with true; [reflexivity|].
    symmetry; apply Z.eqb_eq; assumption.
  - rewrite Hcases.
    destruct (Z.eqb_spec (char_code ch) 32); [lia|].
    destruct (Z.eqb_spec (char_code ch) 42); [lia|].
    destruct (Z.eqb_spec (char_code ch) 45); [lia|].
    replace ((65 <=? char_code ch) && (char_code ch <=? 90)) with true
      by (symmetry; apply Hsplit; assumption).
    f_equal; lia.
  - rewrite Hcases.
    destruct (Z.eqb_spec (char_code ch) 32); [lia|].
    destruct (Z.eqb_spec (char_code ch) 42); [lia|].
    destruct (Z.eqb_spec (char_code ch) 45); [lia|].
    destruct ((65 <=? char_code ch) && (char_code ch <=? 90)) eqn:E;
      [apply Hsplit in E; lia|].
    replace ((97 <=? char_code ch) && (char_code ch <=? 122)) with true
      by (symmetry; apply Hsplit; assumption).
    f_equal; lia.
  - rewrite (Hcases ch), (Hcases lower).
    destruct (Z.eqb_spec (char_code ch) 32); [lia|].
    destruct (Z.eqb_spec (char_code ch) 42); [lia|].
    destruct (Z.eqb_spec (char_code ch) 45); [lia|].
    destruct (Z.eqb_spec (char_code lower) 32); [lia|].
    destruct (Z.eqb_spec (char_code lower) 42); [lia|].
    destruct (Z.eqb_spec (char_code lower) 45); [lia|].
    replace ((65 <=? char_code ch) && (char_code ch <=? 90)) with true
      by (symmetry; apply Hsplit; assumption).
    destruct ((65 <=? char_code lower) && (char_code lower <=? 90)) eqn:E;
      [apply Hsplit in E; lia|].
    replace ((97 <=? char_code lower) && (char_code lower <=? 122)) with true
      by (symmetry; apply Hsplit; lia).
    f_equal; lia.
  - rewrite Hcases.
    destruct (Z.eqb_spec (char_code ch) 32); [lia|].
    destruct (Z.eqb_spec (char_code ch) 42); [lia|].
    destruct (Z.eqb_spec (char_code ch) 45); [lia|].
    destruct ((65 <=? char_code ch) && (char_code ch <=? 90)) eqn:E1;
      [apply Hsplit in E1; lia|].
    destruct ((97 <=? char_code ch) && (char_code ch <=? 122)) eqn:E2;
      [apply Hsplit in E2; lia|].
    replace ((48 <=? char_code ch) && (char_code ch <=? 57)) with true
      by (symmetry; apply Hsplit; assumption).
    reflexivity.
  - rewrite Hcases.
    destruct (Z.eqb_spec (char_code ch) 32); [contradiction|].
    destruct (Z.eqb_spec (char_code ch) 42); [contradiction|].
    destruct (Z.eqb_spec (char_code ch) 45); [contradiction|].
    destruct ((65 <=? char_code ch) && (char_code ch <=? 90)) eqn:E1;
      [apply Hsplit in E1; contradiction|].
    destruct ((97 <=? char_code ch) && (char_code ch <=? 122)) eqn:E2;
      [apply Hsplit in E2; contradiction|].
    destruct ((48 <=? char_code ch) && (char_code ch <=? 57)) eqn:E3;
      [apply Hsplit in E3; contradiction|].
    reflexivity.
Qed.

End EncodeChar.

Section VectorStores.

Lemma store_middle (done fill : list Z) (old x : Z) :
  store (done ++ old :: fill) (length done) x = done ++ x :: fill.
Proof.
  induction done as [|h done IH]; simpl; [reflexivity|].
  now rewrite IH.
Qed.

Lemma at_middle (done fill : list Z) (x : Z) :
  at_ (done ++ x :: fill) (Z.of_nat (length done)) = Ok x.
Proof.
  unfold at_. rewrite length_app. simpl length.
  replace (0 <=? Z.of_nat (length done)) with true
    by (symmetry; apply Z.leb_le; lia).
  replace (Z.of_nat (length done)
             <? Z.of_nat (length done + S (length fill))) with true
    by (symmetry; apply Z.ltb_lt; lia).
  simpl. rewrite Nat2Z.id, app_nth2, Nat.sub_diag by lia. reflexivity.
Qed.

Lemma subscript_assign_middle (done fill : list Z) (old x : Z) :
  subscript_assign (done ++ old :: fill) (length done) x
  = Ok (done ++ x :: fill).
Proof.
  unfold subscript_assign. rewrite length_app. simpl length.
  replace (length done <? length done + S (length fill))%nat with true
    by (symmetry; apply Nat.ltb_lt; lia).
  now rewrite store_middle.
Qed.

(** A store through [operator[]] at the end of the vector, or beyond. *)
Lemma subscript_assign_past_end (v : list Z) (n : nat) (x : Z) :
  (length v <= n)%nat -> subscript_assign v n x = Undefined.
Proof.
  intro H. unfold subscript_assign.
  replace (n <? length v)%nat with false
    by (symmetry; apply Nat.ltb_ge; exact H).
  reflexivity.
Qed.

Lemma lor_msb_byte (x : Z) :
  0 <= x < 256 -> uint8_t (Z.lor x TM1637_MSB) = Z.lor x TM1637_MSB.
Proof.
  intro Hx. unfold uint8_t, TM1637_MSB.
  apply Z.mod_small. split.
  - apply Z.lor_nonneg; lia.
  - destruct (Z.eq_dec (Z.lor x 0x80) 0) as [E|E]; [rewrite E; lia|].
    apply Z.log2_lt_pow2.
    + assert (0 <= Z.lor x 0x80) by (apply Z.lor_nonneg; lia). lia.
    + rewrite Z.log2_lor by lia.
      apply Z.max_lub_lt; [|reflexivity].
      destruct (Z.eq_dec x 0) as [->|]; [reflexivity|].
      apply Z.log2_lt_pow2; lia.
Qed.

Lemma at_or_assign_last (done fill : list Z) (x : Z) :
  0 <= x < 256 ->
  at_or_assign ((done ++ [x]) ++ fill) (length (done ++ [x]) - 1) TM1637_MSB
  = Ok ((done ++ [Z.lor x TM1637_MSB]) ++ fill).
Proof.
  intro Hx. unfold at_or_assign.
  rewrite length_app. simpl length.
  replace (length done + 1 - 1)%nat with (length done) by lia.
  rewrite <- !app_assoc. simpl app.
  rewrite at_middle, store_middle, lor_msb_byte by exact Hx.
  reflexivity.
Qed.

End VectorStores.

Section EncodeString.

Lemma or_last_snoc (l : list Z) (x : Z) :
  or_last (l ++ [x]) = l ++ [Z.lor x TM1637_MSB].
Proof.
  unfold or_last. destruct (l ++ [x]) eqn:E.
  - destruct l; discriminate.
  - rewrite <- E, removelast_last, last_last. reflexivity.
Qed.

Lemma lor_msb_twice (x : Z) :
  Z.lor (Z.lor x TM1637_MSB) TM1637_MSB = Z.lor x TM1637_MSB.
Proof. now rewrite <- Z.lor_assoc, Z.lor_diag. Qed.

Lemma length_store (v : list Z) (n : nat) (x : Z) :
  length (store v n x) = length v.
Proof.
  revert n; induction v as [|h v IH]; intros [|n]; simpl; auto.
Qed.

Lemma length_glyphs (str : list ascii) :
  length (glyphs str) = count_non_dot str.
Proof.
  induction str as [|ch rest IH]; simpl; [reflexivity|].
  destruct (is_dot ch); simpl; congruence.
Qed.

Lemma glyphs_byte (str : list ascii) :
  Forall (fun x => 0 <= x < 256) (glyphs str).
Proof.
  induction str as [|ch rest IH]; simpl; [constructor|].
  destruct (is_dot ch); [exact IH|].
  constructor; [|exact IH].
  pose proof (encode_char_range ch) as Hr.
  destruct (followed_by_dot rest); [|lia].
  rewrite <- lor_msb_byte by lia.
  unfold uint8_t. apply Z.mod_pos_bound. lia.
Qed.

(** The second loop computes the specification's reading.  [done] are the
    slots already written, [fill] the zero bytes still to be written. *)
Lemma encode_string_fill_glyphs (rest : list ascii) :
  forall done fill : list Z,
    Forall (fun x => 0 <= x < 256) done ->
    length fill = count_non_dot rest ->
    done <> [] \/ followed_by_dot rest = false ->
    encode_string_fill rest (done ++ fill) (length done)
    = Ok ((if followed_by_dot rest then or_last done else done)
            ++ glyphs rest).
Proof.
  induction rest as [|ch rest IH]; intros done fill Hbyte Hfill Hlead.
  - simpl in *. destruct fill; [|discriminate]. reflexivity.
  - cbn [encode_string_fill followed_by_dot glyphs count_non_dot] in *.
    destruct (is_dot ch) eqn:Edot.
    + (* a dot: the previous slot takes the MSB *)
      destruct Hlead as [Hne|Hno]; [|discriminate].
      destruct (exists_last Hne) as (done' & x & ->).
      assert (Hx : 0 <= x < 256).
      { apply Forall_app in Hbyte as [_ Hx]. now inversion Hx. }
      replace (0 <? length (done' ++ [x]))%nat with true
        by (symmetry; apply Nat.ltb_lt; rewrite length_app; simpl; lia).
      cbn [andb]. rewrite at_or_assign_last by exact Hx.
      replace (length (done' ++ [x]))
        with (length (done' ++ [Z.lor x TM1637_MSB]))
        by (rewrite !length_app; reflexivity).
      rewrite IH.
      * rewrite !or_last_snoc, lor_msb_twice.
        now destruct (followed_by_dot rest).
      * apply Forall_app in Hbyte as [Hd _].
        apply Forall_app; split; [exact Hd|].
        constructor; [|constructor].
        rewrite <- lor_msb_byte by exact Hx.
        unfold uint8_t. apply Z.mod_pos_bound. lia.
      * exact Hfill.
      * left. destruct done'; discriminate.
    + (* any other character: the next slot is written *)
      cbn [andb]. destruct fill as [|z fill]; [discriminate|].
      rewrite subscript_assign_middle.
      change (done ++ encode_char ch :: fill)
        with (done ++ [encode_char ch] ++ fill).
      rewrite app_assoc.
      replace (length done + 1)%nat with (length (done ++ [encode_char ch]))
        by (rewrite length_app; reflexivity).
      rewrite IH.
      * rewrite or_last_snoc.
        destruct (followed_by_dot rest); now rewrite <- app_assoc.
      * apply Forall_app; split; [exact Hbyte|].
        constructor; [|constructor].
        pose proof (encode_char_range ch). lia.
      * simpl in Hfill. lia.
      * left. destruct done; discriminate.
Qed.

(** The padding loop stops within six turns. *)
Lemma encode_string_pad_repeat (fuel : nat) :
  forall segments : Segments,
    (6 - length segments <= fuel)%nat ->
    encode_string_pad fuel segments
    = segments ++ repeat blank (6 - length segments).
Proof.
  induction fuel as [|fuel IH]; intros segments Hfuel;
    cbn [encode_string_pad].
  - replace (6 - length segments)%nat with O by lia.
    cbn [repeat]. now rewrite app_nil_r.
  - destruct (Nat.ltb_spec (length segments) 6) as [Hlt|Hge].
    + rewrite IH by (rewrite length_app; cbn [length]; lia).
      rewrite length_app, <- app_assoc. cbn [length].
      replace (6 - length segments)%nat
        with (S (6 - (length segments + 1)))%nat by lia.
      reflexivity.
    + replace (6 - length segments)%nat with O by lia.
      cbn [repeat]. now rewrite app_nil_r.
Qed.

(** A string that does not begin with ['.']: the specification's slots,
    padded with blanks up to six. *)
Lemma encode_chars_glyphs (str : list ascii) :
  followed_by_dot str = false ->
  encode_chars str
  = Ok (glyphs str ++ repeat blank (6 - count_non_dot str)).
Proof.
  intro Hlead. unfold encode_chars, resize_new.
  pose proof (@encode_string_fill_glyphs str [] (repeat 0 (count_non_dot str)))
    as H.
  cbn [app length] in H. rewrite H, Hlead.
  - cbn [app]. rewrite encode_string_pad_repeat, length_glyphs by lia.
    reflexivity.
  - constructor.
  - apply repeat_length.
  - now right.
Qed.

(** Once more slots are due than the vector holds, a store past its end
    is reached. *)
Lemma encode_string_fill_overrun (rest : list ascii) :
  forall (segments : Segments) (j : nat),
    (1 <= j <= length segments)%nat ->
    (length segments < j + count_non_dot rest)%nat ->
    encode_string_fill rest segments j = Undefined.
Proof.
  induction rest as [|ch rest IH]; intros segments j Hj Hd;
    cbn [encode_string_fill count_non_dot] in *; [lia|].
  destruct (is_dot ch).
  - replace (0 <? j)%nat with true by (symmetry; apply Nat.ltb_lt; lia).
    cbn [andb]. unfold at_or_assign, at_.
    replace (0 <=? Z.of_nat (j - 1)) with true
      by (symmetry; apply Z.leb_le; lia).
    replace (Z.of_nat (j - 1) <? Z.of_nat (length segments)) with true
      by (symmetry; apply Z.ltb_lt; lia).
    cbn [andb]. apply IH; rewrite length_store; lia.
  - cbn [andb]. unfold subscript_assign.
    destruct (Nat.ltb_spec j (length segments)); [|reflexivity].
    apply IH; rewrite length_store; lia.
Qed.

(** A string that begins with ['.']: the dot is encoded like any other
    character and takes a slot that the first loop did not count. *)
Lemma encode_chars_leading_dot (str : list ascii) :
  followed_by_dot str = true -> encode_chars str = Undefined.
Proof.
  destruct str as [|ch rest]; [discriminate|]. cbn [followed_by_dot].
  intro Hdot. unfold encode_chars, resize_new.
  cbn [encode_string_fill count_non_dot]. rewrite Hdot.
  cbn [andb Nat.ltb Nat.leb]. unfold subscript_assign.
  rewrite repeat_length.
  destruct (Nat.ltb_spec 0 (count_non_dot rest)); [|reflexivity].
  rewrite encode_string_fill_overrun; [reflexivity| |];
    rewrite length_store, repeat_length; simpl; lia.
Qed.

Lemma dots_follow_segment_pos (str : list ascii) :
  forall n : nat, (0 < n)%nat -> dots_follow_segment n str = true.
Proof.
  induction str as [|ch rest IH]; intros n Hn; simpl; [reflexivity|].
  destruct (is_dot ch).
  - rewrite IH by exact Hn.
    replace (0 <? n)%nat with true by (symmetry; apply Nat.ltb_lt; exact Hn).
    reflexivity.
  - apply IH. lia.
Qed.

(** The dots of a string all follow a segment exactly when the string
    does not begin with one. *)
Lemma dots_follow_segment_head (str : list ascii) :
  dots_follow_segment 0 str = negb (followed_by_dot str).
Proof.
  destruct str as [|ch rest]; simpl; [reflexivity|].
  destruct (is_dot ch); [reflexivity|].
  apply dots_follow_segment_pos. lia.
Qed.

Lemma count_non_dot_app (pre post : list ascii) :
  count_non_dot (pre ++ post) = (count_non_dot pre + count_non_dot post)%nat.
Proof.
  induction pre as [|ch pre IH]; simpl; [reflexivity|].
  destruct (is_dot ch); simpl; congruence.
Qed.

Lemma followed_by_dot_app (pre post : list ascii) :
  followed_by_dot (pre ++ post)
  = match pre with [] => followed_by_dot post | _ => followed_by_dot pre end.
Proof. destruct pre; reflexivity. Qed.

(** Slots before a character other than ['.'] are not touched by what
    follows. *)
Lemma glyphs_app (pre post : list ascii) :
  followed_by_dot post = false ->
  glyphs (pre ++ post) = glyphs pre ++ glyphs post.
Proof.
  intro Hpost. induction pre as [|ch pre IH]; simpl; [reflexivity|].
  rewrite IH, followed_by_dot_app.
  destruct (is_dot ch); [reflexivity|].
  destruct pre; [simpl; rewrite Hpost|]; reflexivity.
Qed.

(** A ['.'] adds no slot; it sets the MSB of the last slot before it. *)
Lemma glyphs_app_dot (pre post : list ascii) (dot : ascii) :
  is_dot dot = true ->
  glyphs (pre ++ dot :: post) = or_last (glyphs pre) ++ glyphs post.
Proof.
  intro Hdot. induction pre as [|ch pre IH]; simpl.
  - now rewrite Hdot.
  - rewrite IH, followed_by_dot_app.
    destruct (is_dot ch) eqn:Ech; [reflexivity|].
    destruct pre as [|ch' pre].
    + simpl. rewrite Hdot. reflexivity.
    + cbn [followed_by_dot].
      set (head := if is_dot ch' then _ else _).
      destruct (glyphs (ch' :: pre)) as [|g gs] eqn:Eg.
      * (* only dots between [ch] and [dot] *)
        assert (Hch' : is_dot ch' = true).
        { simpl in Eg. destruct (is_dot ch'); [reflexivity|discriminate]. }
        subst head. rewrite Hch'.
        change (or_last [Z.lor (encode_char ch) TM1637_MSB])
          with [Z.lor (Z.lor (encode_char ch) TM1637_MSB) TM1637_MSB].
        now rewrite lor_msb_twice.
      * unfold or_last. cbn [app].
        change (removelast (head :: g :: gs))
          with (head :: removelast (g :: gs)).
        change (last (head :: g :: gs) 0) with (last (g :: gs) 0).
        reflexivity.
Qed.

Lemma nth_or_last (l : list Z) :
  l <> [] ->
  Z.testbit (nth (length l - 1) (or_last l) 0) 7 = true.
Proof.
  intro Hne. destruct (exists_last Hne) as (l' & x & ->).
  rewrite or_last_snoc, length_app. simpl length.
  rewrite app_nth2 by lia.
  replace (length l' + 1 - 1 - length l')%nat with O by lia.
  simpl nth. rewrite Z.lor_spec. unfold TM1637_MSB.
  change (Z.testbit 0x80 7) with true. apply orb_true_r.
Qed.

Lemma encode_char_low7 (ch : ascii) :
  Z.land (encode_char ch) 0x7F = encode_char ch /\
  Z.land (Z.lor (encode_char ch) TM1637_MSB) 0x7F = encode_char ch.
Proof.
  destruct ch as [[] [] [] [] [] [] [] []]; vm_compute; split; reflexivity.
Qed.

(** Without the MSB, the slots are the encoded characters, in order. *)
Lemma glyphs_low7 (str : list ascii) :
  map (fun b => Z.land b 0x7F) (glyphs str)
  = map encode_char (filter non_dot str).
Proof.
  induction str as [|ch rest IH]; simpl; [reflexivity|].
  unfold non_dot at 1. destruct (is_dot ch); simpl; [exact IH|].
  rewrite IH. f_equal.
  destruct (followed_by_dot rest); apply encode_char_low7.
Qed.

Lemma length_list_ascii_of_string (str : string) :
  length (list_ascii_of_string str) = String.length str.
Proof. induction str as [|ch str IH]; simpl; congruence. Qed.

Lemma glyphs_no_dot (str : list ascii) :
  forallb non_dot str = true ->
  glyphs str = map encode_char str.
Proof.
  induction str as [|ch rest IH]; simpl; [reflexivity|].
  intro H. apply andb_true_iff in H as [Hch Hrest].
  apply negb_true_iff in Hch. rewrite Hch, IH by exact Hrest.
  destruct rest as [|ch' rest]; [reflexivity|].
  simpl in Hrest. apply andb_true_iff in Hrest as [Hch' _].
  apply negb_true_iff in Hch'. cbn [followed_by_dot]. now rewrite Hch'.
Qed.

End EncodeString.

Section EncodeStringProperties.

(** C2.  On the one-character string ["."] the first loop counts no
    slot, so the vector is empty; in the second loop [j > 0] fails, the
    ['.'] is encoded like any other character (to the star pattern) and
    stored through [segments[0]], past the end of the empty vector.  The
    dot is not dropped: the call is undefined behaviour, as it is for
    every string that begins with ['.']. *)
Theorem encode_string_lone_dot :
  count_non_dot (list_ascii_of_string ".") = 0%nat /\
  (is_dot "."%char && (0 <? 0)%nat = false) /\
  encode_char "."%char = star /\
  subscript_assign (resize_new 0) 0 (encode_char "."%char) = Undefined /\
  encode_string "." = Undefined /\
  (forall rest : string, encode_string (String "."%char rest) = Undefined).
Proof.
  repeat split; try reflexivity.
  intro rest. unfold encode_string. simpl list_ascii_of_string.
  apply encode_chars_leading_dot. reflexivity.
Qed.

(** C6.  In a string whose dots all follow an emitted segment, a ['.']
    takes no slot (the result has one slot per other character, six at
    least), every ['.'] leaves the MSB set in the slot just before it,
    and the slot of a character is its pattern, with the MSB exactly when
    a ['.'] follows it; the slots after the last character are blank.
    In particular ["1.2"] gives the pattern of ['1'] with the MSB, the
    pattern of ['2'], and four blanks. *)
Theorem encode_string_dot_sets_msb (str : string) :
  dots_follow_segment 0 (list_ascii_of_string str) = true ->
  (exists segments : Segments,
     encode_string str = Ok segments /\
     length segments
       = Nat.max (count_non_dot (list_ascii_of_string str)) 6 /\
     (forall (pre post : list ascii) (dot : ascii),
        list_ascii_of_string str = pre ++ dot :: post ->
        is_dot dot = true ->
        (1 <= count_non_dot pre)%nat /\
        Z.testbit (nth (count_non_dot pre - 1) segments 0) 7 = true) /\
     (forall (pre post : list ascii) (ch : ascii),
        list_ascii_of_string str = pre ++ ch :: post ->
        is_dot ch = false ->
        nth (count_non_dot pre) segments 0
        = if followed_by_dot post
          then Z.lor (encode_char ch) 0x80
          else encode_char ch) /\
     (forall k : nat,
        (count_non_dot (list_ascii_of_string str) <= k < 6)%nat ->
        nth k segments 0 = blank)) /\
  encode_string "1.2"
  = Ok [Z.lor (encode_char "1"%char) 0x80; encode_char "2"%char;
        blank; blank; blank; blank].
Proof.
  intro Hdots. split; [|reflexivity].
  rewrite dots_follow_segment_head in Hdots.
  apply negb_true_iff in Hdots.
  unfold encode_string.
  set (cs := list_ascii_of_string str) in *.
  exists (glyphs cs ++ repeat blank (6 - count_non_dot cs)).
  split; [apply encode_chars_glyphs; exact Hdots|].
  split; [rewrite length_app, length_glyphs, repeat_length; lia|].
  split; [|split].
  - intros pre post dot Hsplit Hdot.
    assert (Hpre : (1 <= count_non_dot pre)%nat).
    { destruct pre as [|ch pre].
      - rewrite Hsplit in Hdots. simpl in Hdots. congruence.
      - rewrite Hsplit in Hdots. simpl in Hdots. simpl.
        rewrite Hdots. lia. }
    split; [exact Hpre|].
    rewrite Hsplit, glyphs_app_dot by exact Hdot.
    assert (Hlen : length (or_last (glyphs pre)) = count_non_dot pre).
    { rewrite <- length_glyphs in *.
      destruct (glyphs pre) as [|g gs] eqn:Eg; [simpl in Hpre; lia|].
      destruct (@exists_last _ (g :: gs)) as (l' & x & El);
        [discriminate|].
      rewrite El, or_last_snoc, !length_app. reflexivity. }
    rewrite <- app_assoc, app_nth1 by lia.
    rewrite <- length_glyphs. apply nth_or_last.
    rewrite <- length_glyphs in Hpre.
    destruct (glyphs pre); [simpl in Hpre; lia|discriminate].
  - intros pre post ch Hsplit Hch.
    rewrite Hsplit, glyphs_app by (simpl; exact Hch).
    rewrite <- app_assoc, app_nth2 by (rewrite length_glyphs; lia).
    rewrite length_glyphs, Nat.sub_diag. simpl. rewrite Hch. reflexivity.
  - intros k Hk.
    rewrite app_nth2 by (rewrite length_glyphs; lia).
    rewrite length_glyphs. apply nth_repeat_lt. lia.
Qed.

Lemma encode_string_dot_sets_msb_witness :
  dots_follow_segment 0 (list_ascii_of_string "1..2.") = true /\
  exists segments : Segments,
    encode_string "1..2." = Ok segments /\ length segments = 6%nat.
Proof.
  split; [reflexivity|].
  destruct (@encode_string_dot_sets_msb "1..2." eq_refl)
    as [(segments & Hrun & Hlen & _) _].
  exists segments. split; [exact Hrun|exact Hlen].
Defined.

(** C7.  A string with between one and six characters other than ['.'],
    whose dots all follow an emitted segment, encodes to exactly six
    entries: the encoded characters in order (a slot differs from the
    pattern of its character by the MSB at most, and not at all when the
    string has no ['.']), then blank patterns.  In particular ["12345"]
    gives its five patterns and one blank. *)
Theorem encode_string_pads_to_six (str : string) :
  (1 <= count_non_dot (list_ascii_of_string str) <= 6)%nat ->
  dots_follow_segment 0 (list_ascii_of_string str) = true ->
  (exists segments : Segments,
     encode_string str = Ok segments /\
     length segments = 6%nat /\
     firstn (count_non_dot (list_ascii_of_string str)) segments
       = glyphs (list_ascii_of_string str) /\
     map (fun b => Z.land b 0x7F)
         (firstn (count_non_dot (list_ascii_of_string str)) segments)
       = map encode_char (filter non_dot (list_ascii_of_string str)) /\
     skipn (count_non_dot (list_ascii_of_string str)) segments
       = repeat blank (6 - count_non_dot (list_ascii_of_string str)) /\
     (forallb non_dot (list_ascii_of_string str) = true ->
      segments
      = map encode_char (list_ascii_of_string str)
          ++ repeat blank (6 - String.length str))) /\
  encode_string "12345"
  = Ok [encode_char "1"%char; encode_char "2"%char; encode_char "3"%char;
        encode_char "4"%char; encode_char "5"%char; blank].
Proof.
  intros Hd Hdots. split; [|reflexivity].
  rewrite dots_follow_segment_head in Hdots.
  apply negb_true_iff in Hdots.
  unfold encode_string.
  set (cs := list_ascii_of_string str) in *.
  exists (glyphs cs ++ repeat blank (6 - count_non_dot cs)).
  split; [apply encode_chars_glyphs; exact Hdots|].
  split; [rewrite length_app, length_glyphs, repeat_length; lia|].
  assert (Hfirst : firstn (count_non_dot cs)
                     (glyphs cs ++ repeat blank (6 - count_non_dot cs))
                   = glyphs cs).
  { rewrite <- length_glyphs, firstn_app, Nat.sub_diag, firstn_all.
    simpl. apply app_nil_r. }
  repeat split.
  - exact Hfirst.
  - rewrite Hfirst. apply glyphs_low7.
  - rewrite <- (length_glyphs cs) at 1.
    rewrite skipn_app, Nat.sub_diag, skipn_all. reflexivity.
  - intro Hno. rewrite glyphs_no_dot by exact Hno.
    rewrite <- (length_glyphs cs), glyphs_no_dot by exact Hno.
    rewrite length_map. subst cs.
    now rewrite length_list_ascii_of_string.
Qed.

Lemma encode_string_pads_to_six_witness :
  (1 <= count_non_dot (list_ascii_of_string "12.5") <= 6)%nat /\
  dots_follow_segment 0 (list_ascii_of_string "12.5") = true /\
  exists segments : Segments,
    encode_string "12.5" = Ok segments /\ length segments = 6%nat.
Proof.
  assert (Hd : (1 <= count_non_dot (list_ascii_of_string "12.5") <= 6)%nat)
    by (simpl; lia).
  split; [exact Hd|]. split; [reflexivity|].
  destruct (@encode_string_pads_to_six "12.5" Hd eq_refl)
    as [(segments & Hrun & Hlen & _) _].
  exists segments. split; [exact Hrun|exact Hlen].
Defined.

End EncodeStringProperties.

(* ================================================================== *)
(** * Facts about the protocol driver                                  *)
(* ================================================================== *)

Section Running.

Context {A B : Type}.

Lemma runs_ret (a : A) (d : TM1637) : runs (ret a) d (Ok a) d [].
Proof. intro log. unfold ret. now rewrite app_nil_r. Qed.

Lemma runs_lift (o : outcome A) (d : TM1637) : runs (lift o) d o d [].
Proof. intro log. unfold lift. now rewrite app_nil_r. Qed.

Lemma runs_bind (c : M A) (k : A -> M B) (d d1 d2 : TM1637) (a : A)
    (o : outcome B) (ev1 ev2 : list sdk_call) :
  runs c d (Ok a) d1 ev1 ->
  runs (k a) d1 o d2 ev2 ->
  runs (bind c k) d o d2 (ev1 ++ ev2).
Proof.
  intros Hc Hk log. unfold bind. rewrite Hc, Hk, app_assoc. reflexivity.
Qed.

Lemma runs_bind_throw (c : M A) (k : A -> M B) (d d1 : TM1637)
    (ev : list sdk_call) :
  runs c d OutOfRange d1 ev ->
  runs (bind c k) d OutOfRange d1 ev.
Proof. intros Hc log. unfold bind. now rewrite Hc. Qed.


Lemma runs_this_bind (k : TM1637 -> M B) (d d' : TM1637) (o : outcome B)
    (ev : list sdk_call) :
  runs (k d) d o d' ev -> runs (bind this k) d o d' ev.
Proof. intros Hk log. unfold bind, this. simpl. apply Hk. Qed.

Lemma runs_events (c : M A) (d d' : TM1637) (o : outcome A)
    (ev ev' : list sdk_call) :
  ev = ev' -> runs c d o d' ev -> runs c d o d' ev'.
Proof. now intros ->. Qed.

End Running.

Lemma runs_call (e : sdk_call) (d : TM1637) : runs (call e) d (Ok tt) d [e].
Proof. intro log. reflexivity. Qed.

(** One step of a call whose head is a bind, an SDK call or a return. *)
Ltac run_step :=
  cbv beta;
  lazymatch goal with
  | |- runs (bind this _) _ _ _ _ => apply runs_this_bind
  | |- runs (bind _ _) _ _ _ _ => eapply runs_bind
  | |- runs (call _) _ _ _ _ => apply runs_call
  | |- runs (ret _) _ _ _ _ => apply runs_ret
  | |- runs (lift _) _ _ _ _ => apply runs_lift
  end.

(** Run a straight-line call and compare what it logged. *)
Ltac run_straight :=
  eapply runs_events; cycle 1; [ repeat run_step | reflexivity ].

Section Primitives.

Variable d : TM1637.

Lemma runs__start : runs _start d (Ok tt) d (start_condition d).
Proof. unfold _start. run_straight. Qed.

Lemma runs__stop : runs _stop d (Ok tt) d (stop_condition d).
Proof. unfold _stop. run_straight. Qed.

(** [(b >> i) & 1], read as a [bool], is bit [i] of [b]. *)
Lemma bit_of_testbit (b i : Z) : 0 <= i -> bit_of b i = Z.testbit b i.
Proof.
  intro Hi. unfold bit_of.
  transitivity (Z.testbit (Z.shiftr b i) 0);
    [|rewrite Z.shiftr_spec by lia; f_equal; lia].
  change 1 with (Z.ones 1). rewrite Z.land_ones by lia.
  rewrite Z.bit0_odd. change (2 ^ 1) with 2. rewrite Zmod_odd.
  now destruct (Z.odd (Z.shiftr b i)).
Qed.

Lemma runs__write_byte (b : Z) :
  runs (_write_byte b) d (Ok tt) d (byte_frame d b).
Proof.
  unfold _write_byte, byte_frame.
  cbn [for_ seq flat_map Z.of_nat Pos.of_succ_nat Pos.succ Z.add Pos.add].
  rewrite !bit_of_testbit by lia.
  run_straight.
Qed.

Lemma runs_set_brightness_ (b : Z) :
  runs (set_brightness_ b) d (Ok tt) (mkTM1637 (clk_ d) (dio_ d) b) [].
Proof.
  intro log. unfold set_brightness_. cbn [self sdk_log].
  now rewrite app_nil_r.
Qed.

Lemma runs__write_data_cmd :
  runs _write_data_cmd d (Ok tt) d (data_command d).
Proof.
  unfold _write_data_cmd, data_command.
  eapply runs_bind; [apply runs__start|].
  eapply runs_bind; [apply runs__write_byte|].
  apply runs__stop.
Qed.

Lemma runs__write_dsp_ctrl :
  runs _write_dsp_ctrl d (Ok tt) d (display_control d).
Proof.
  unfold _write_dsp_ctrl, display_control. apply runs_this_bind.
  eapply runs_bind; [apply runs__start|].
  eapply runs_bind; [apply runs__write_byte|].
  apply runs__stop.
Qed.

End Primitives.

Section WriteLoop.

Variable d : TM1637.
Variable segments : Segments.

Lemma at_never_undefined (v : list Z) (n : Z) : at_ v n <> Undefined.
Proof. unfold at_. destruct (_ && _); discriminate. Qed.

(** The loop of [write] puts on the wire the bytes its accesses return,
    and stops at the first access that throws. *)
Lemma runs_write_loop (count : nat) :
  forall i : Z,
    runs (for_ count i (fun i =>
            b <- lift (at_ segments (permuted_index i)) ;; _write_byte b))
         d
         (if snd (permuted_reads segments count i)
          then Ok tt else OutOfRange)
         d
         (wire_bytes d (fst (permuted_reads segments count i))).
Proof.
  induction count as [|count IH]; intro i; cbn [for_ permuted_reads];
    cbv beta.
  - apply runs_ret.
  - destruct (at_ segments (permuted_index i)) as [b| |] eqn:Eat.
    + specialize (IH (i + 1)).
      destruct (permuted_reads segments count (i + 1)) as [bytes normal].
      cbn [fst snd wire_bytes flat_map] in *.
      eapply runs_bind; [|exact IH].
      eapply runs_events;
        [|eapply runs_bind; [apply runs_lift|apply runs__write_byte]].
      reflexivity.
    + cbn [fst snd wire_bytes flat_map].
      do 2 apply runs_bind_throw. apply runs_lift.
    + now apply at_never_undefined in Eat.
Qed.

(** [write] as a whole: the Data command, start, the address byte, the
    bytes the loop reads; then, when no access threw, stop and the
    Display-control command. *)
Lemma runs_write (pos : Z) :
  runs (write segments pos) d
       (if snd (permuted_reads segments (length segments) 0)
        then Ok tt else OutOfRange)
       d
       (data_command d
          ++ start_condition d
          ++ byte_frame d (Z.lor 0xC0 (Z.min (uint8_t pos) 5))
          ++ wire_bytes d (fst (permuted_reads segments (length segments) 0))
          ++ (if snd (permuted_reads segments (length segments) 0)
              then stop_condition d ++ display_control d
              else [])).
Proof.
  unfold write.
  eapply runs_bind; [apply runs__write_data_cmd|].
  eapply runs_bind; [apply runs__start|].
  eapply runs_bind; [apply runs__write_byte|].
  pose proof (runs_write_loop (length segments) 0) as Hloop.
  destruct (permuted_reads segments (length segments) 0) as [bytes normal].
  cbn [fst snd] in *. destruct normal.
  - eapply runs_bind; [exact Hloop|].
    eapply runs_bind; [apply runs__stop|].
    apply runs__write_dsp_ctrl.
  - rewrite app_nil_r. apply runs_bind_throw. exact Hloop.
Qed.

End WriteLoop.

Section WriteAnyLength.

Variable segments : Segments.

Lemma at_in_range (n : nat) :
  (n < length segments)%nat -> at_ segments (Z.of_nat n) = Ok (nth n segments 0).
Proof.
  intro Hn. unfold at_.
  replace (0 <=? Z.of_nat n) with true by (symmetry; apply Z.leb_le; lia).
  replace (Z.of_nat n <? Z.of_nat (length segments)) with true
    by (symmetry; apply Z.ltb_lt; lia).
  now rewrite Nat2Z.id.
Qed.

Lemma at_out_of_range (n : Z) :
  Z.of_nat (length segments) <= n -> at_ segments n = OutOfRange.
Proof.
  intro Hn. unfold at_.
  replace (n <? Z.of_nat (length segments)) with false
    by (symmetry; apply Z.ltb_ge; exact Hn).
  now rewrite andb_false_r.
Qed.

(** Within a group of three the order is reversed. *)
Lemma source_index_group (j : nat) :
  source_index j = (3 * (j / 3) + (2 - j mod 3))%nat.
Proof.
  unfold source_index.
  pose proof (Nat.div_mod_eq j 3). pose proof (Nat.mod_upper_bound j 3).
  lia.
Qed.

(** Below 768 neither the [uint8_t] cast nor the [size_t] subtraction
    wraps: the code computes the specification's index. *)
Lemma permuted_index_small (j : nat) :
  (j < 768)%nat -> permuted_index (Z.of_nat j) = Z.of_nat (source_index j).
Proof.
  intro Hj. unfold permuted_index, source_index, uint8_t, size_t.
  pose proof (Nat.div_mod_eq j 3) as Hdiv.
  pose proof (Nat.mod_upper_bound j 3) as Hmod.
  rewrite Nat2Z.inj_sub by lia.
  rewrite Nat2Z.inj_add, Nat2Z.inj_mul, Nat2Z.inj_div.
  change (Z.of_nat 3) with 3. change (Z.of_nat 6) with 6.
  change (Z.of_nat 2) with 2.
  assert (Hq : 0 <= Z.of_nat j / 3 < 2 ^ 8).
  { split; [apply Z.div_pos; lia|apply Z.div_lt_upper_bound; lia]. }
  rewrite (Z.mod_small (Z.of_nat j / 3)) by exact Hq.
  apply Z.mod_small.
  pose proof (Z.div_mod (Z.of_nat j) 3).
  pose proof (Z.mod_pos_bound (Z.of_nat j) 3). lia.
Qed.

(** From turn 768 on the cast drops the high bits of [i / 3], the
    difference is negative and wraps to an index no vector reaches. *)
Lemma permuted_index_768 : permuted_index 768 = 2 ^ 32 - 766.
Proof. reflexivity. Qed.

Lemma permuted_reads_ok (count : nat) :
  forall start : nat,
    (start + count <= 768)%nat ->
    (forall j : nat,
       (start <= j < start + count)%nat ->
       (source_index j < length segments)%nat) ->
    permuted_reads segments count (Z.of_nat start)
    = (map (fun j => nth (source_index j) segments 0) (seq start count), true).
Proof.
  induction count as [|count IH]; intros start Hmax Hin;
    cbn [permuted_reads seq map]; [reflexivity|].
  rewrite permuted_index_small by lia.
  rewrite at_in_range by (apply Hin; lia).
  replace (Z.of_nat start + 1) with (Z.of_nat (S start)) by lia.
  rewrite IH; [reflexivity|lia|].
  intros j Hj. apply Hin. lia.
Qed.

Lemma permuted_reads_stop (count : nat) :
  forall start more : nat,
    (start + count <= 768)%nat ->
    (forall j : nat,
       (start <= j < start + count)%nat ->
       (source_index j < length segments)%nat) ->
    at_ segments (permuted_index (Z.of_nat (start + count))) = OutOfRange ->
    permuted_reads segments (count + S more) (Z.of_nat start)
    = (map (fun j => nth (source_index j) segments 0) (seq start count), false).
Proof.
  induction count as [|count IH]; intros start more Hmax Hin Hstop.
  - rewrite Nat.add_0_r in Hstop.
    cbn [Nat.add permuted_reads seq map]. now rewrite Hstop.
  - cbn [Nat.add permuted_reads seq map].
    rewrite permuted_index_small by lia.
    rewrite at_in_range by (apply Hin; lia).
    replace (Z.of_nat start + 1) with (Z.of_nat (S start)) by lia.
    rewrite IH; [reflexivity|lia| |].
    + intros j Hj. apply Hin. lia.
    + replace (S start + count)%nat with (start + S count)%nat by lia.
      exact Hstop.
Qed.

(** The accesses of a vector whose length is a multiple of three, up to
    768 entries, all succeed. *)
Lemma permuted_reads_multiple_of_three :
  (length segments mod 3 = 0)%nat ->
  (length segments <= 768)%nat ->
  permuted_reads segments (length segments) 0
  = (map (fun j => nth (source_index j) segments 0)
         (seq 0 (length segments)), true).
Proof.
  intros Hmod Hmax.
  change 0 with (Z.of_nat 0).
  apply permuted_reads_ok; [lia|].
  intros j Hj. rewrite source_index_group.
  pose proof (Nat.div_mod_eq (length segments) 3) as Hn.
  pose proof (Nat.div_mod_eq j 3) as Hjd.
  pose proof (Nat.mod_upper_bound j 3).
  assert (j / 3 < length segments / 3)%nat; [|lia].
  apply Nat.Div0.div_lt_upper_bound. lia.
Qed.

(** Any other vector (shorter than [2 ^ 31], as every vector of the
    target is) makes some access throw. *)
Lemma permuted_reads_otherwise :
  (length segments mod 3 <> 0)%nat \/ (768 < length segments)%nat ->
  Z.of_nat (length segments) < 2 ^ 31 ->
  snd (permuted_reads segments (length segments) 0) = false.
Proof.
  intros Hshape Hsize.
  destruct (Nat.lt_ge_cases 768 (length segments)) as [Hbig|Hsmall].
  - replace (length segments)
      with (768 + S (length segments - 769))%nat at 1 by lia.
    change 0 with (Z.of_nat 0).
    rewrite permuted_reads_stop; [reflexivity|lia| |].
    + intros j Hj. rewrite source_index_group.
      pose proof (Nat.div_mod_eq j 3). pose proof (Nat.mod_upper_bound j 3).
      lia.
    + apply at_out_of_range. cbn [Nat.add].
      change (Z.of_nat 768) with 768. rewrite permuted_index_768. lia.
  - destruct Hshape as [Hmod|Hbig]; [|lia].
    pose proof (Nat.div_mod_eq (length segments) 3) as Hn.
    pose proof (Nat.mod_upper_bound (length segments) 3) as Hr.
    set (k := (3 * (length segments / 3))%nat) in *.
    replace (length segments)
      with (k + S (length segments - k - 1))%nat at 1 by lia.
    change 0 with (Z.of_nat 0).
    rewrite permuted_reads_stop; [reflexivity|lia| |].
    + intros j Hj. rewrite source_index_group.
      pose proof (Nat.div_mod_eq j 3). pose proof (Nat.mod_upper_bound j 3).
      assert (j / 3 < length segments / 3)%nat; [|lia].
      apply Nat.Div0.div_lt_upper_bound. lia.
    + apply at_out_of_range. cbn [Nat.add].
      rewrite permuted_index_small by lia.
      rewrite source_index_group.
      assert (Hk3 : (k / 3 = length segments / 3)%nat)
        by (subst k; rewrite Nat.mul_comm; apply Nat.div_mul; lia).
      assert (Hkm : (k mod 3 = 0)%nat)
        by (subst k; rewrite Nat.mul_comm; apply Nat.Div0.mod_mul).
      rewrite Hk3, Hkm. lia.
Qed.

End WriteAnyLength.

Section DriverProperties.

Lemma runs_on_machine {A : Type} (c : M A) (m : machine) (o : outcome A)
    (d' : TM1637) (events : list sdk_call) :
  runs c (self m) o d' events ->
  c m = (o, mkMachine d' (sdk_log m ++ events)).
Proof. intro H. destruct m as [d log]. apply H. Qed.

(** C1.  On a six-entry sequence [write] completes, and the six segment
    bytes go out, between the address byte and the stop condition, in
    the source order 2, 1, 0, 5, 4, 3: the byte written in turn [i] is
    the entry at index [(i / 3) * 6 + 2 - i]. *)
Theorem write_six_permuted (m : machine) (segments : Segments) (pos : Z) :
  length segments = 6%nat ->
  write segments pos m
  = (Ok tt,
     logged m
       (data_command (self m)
          ++ start_condition (self m)
          ++ byte_frame (self m) (Z.lor 0xC0 (Z.min (uint8_t pos) 5))
          ++ wire_bytes (self m)
               (map (fun i => nth (i / 3 * 6 + 2 - i) segments 0) (seq 0 6))
          ++ stop_condition (self m)
          ++ display_control (self m))) /\
  map (fun i => nth (i / 3 * 6 + 2 - i) segments 0) (seq 0 6)
  = [nth 2 segments 0; nth 1 segments 0; nth 0 segments 0;
     nth 5 segments 0; nth 4 segments 0; nth 3 segments 0] /\
  map permuted_index [0; 1; 2; 3; 4; 5] = [2; 1; 0; 5; 4; 3].
Proof.
  intro Hlen.
  destruct segments as [|s0 [|s1 [|s2 [|s3 [|s4 [|s5 [|]]]]]]];
    try discriminate.
  split; [|split; reflexivity].
  pose proof (runs_write (self m) [s0; s1; s2; s3; s4; s5] pos) as Hrun.
  change (permuted_reads [s0; s1; s2; s3; s4; s5]
            (length [s0; s1; s2; s3; s4; s5]) 0)
    with ([s2; s1; s0; s5; s4; s3], true) in Hrun.
  cbn [fst snd] in Hrun.
  apply (runs_on_machine m Hrun).
Qed.

Lemma write_six_permuted_witness :
  length [0x06; 0x5B; 0x4F; 0x66; 0x6D; 0x7D] = 6%nat /\
  fst (write [0x06; 0x5B; 0x4F; 0x66; 0x6D; 0x7D] 0
         (mkMachine (mkTM1637 2 3 7) []))
  = Ok tt.
Proof.
  split; [reflexivity|].
  rewrite (proj1 (@write_six_permuted (mkMachine (mkTM1637 2 3 7) [])
                    [0x06; 0x5B; 0x4F; 0x66; 0x6D; 0x7D] 0 eq_refl)).
  reflexivity.
Defined.

(** C10.  On a sequence of one or two entries the first access of the
    loop asks for index 2, which [at] refuses: [write] throws right
    after the address byte, with no segment byte, no stop condition and
    no Display-control command on the wire. *)
Theorem write_short_sequence_throws
    (m : machine) (segments : Segments) (pos : Z) :
  length segments = 1%nat \/ length segments = 2%nat ->
  permuted_index 0 = 2 /\
  at_ segments (permuted_index 0) = OutOfRange /\
  write segments pos m
  = (OutOfRange,
     logged m
       (data_command (self m)
          ++ start_condition (self m)
          ++ byte_frame (self m) (Z.lor 0xC0 (Z.min (uint8_t pos) 5)))).
Proof.
  intro Hlen.
  assert (Hat : at_ segments (permuted_index 0) = OutOfRange).
  { destruct segments as [|s0 [|s1 [|]]]; simpl in Hlen;
      try (destruct Hlen; discriminate); reflexivity. }
  split; [reflexivity|]. split; [exact Hat|].
  pose proof (runs_write (self m) segments pos) as Hrun.
  assert (Hreads : permuted_reads segments (length segments) 0 = ([], false)).
  { destruct Hlen as [-> | ->]; cbn [permuted_reads]; now rewrite Hat. }
  rewrite Hreads in Hrun. cbn [fst snd wire_bytes flat_map app] in Hrun.
  rewrite app_nil_r in Hrun.
  apply (runs_on_machine m Hrun).
Qed.

Lemma write_short_sequence_throws_witness :
  (length [0x3F; 0x06] = 1%nat \/ length [0x3F; 0x06] = 2%nat) /\
  fst (write [0x3F; 0x06] 0 (mkMachine (mkTM1637 2 3 7) [])) = OutOfRange.
Proof.
  assert (Hlen : length [0x3F; 0x06] = 1%nat \/ length [0x3F; 0x06] = 2%nat)
    by (right; reflexivity).
  split; [exact Hlen|].
  destruct (@write_short_sequence_throws (mkMachine (mkTM1637 2 3 7) [])
              [0x3F; 0x06] 0 Hlen) as (_ & _ & Hrun).
  rewrite Hrun. reflexivity.
Defined.

(** C4, at the one-entry sequence [[0x3F]] and position 0: the Data
    command, the start condition and the address byte [0xC0] go out,
    then [segments.at(2)] throws; the segment byte, the stop condition
    and the Display-control command never reach the wire. *)
Theorem write_one_segment_incomplete (m : machine) :
  write [0x3F] 0 m
  = (OutOfRange,
     logged m
       (data_command (self m)
          ++ start_condition (self m)
          ++ byte_frame (self m) 0xC0)).
Proof.
  pose proof (runs_write (self m) [0x3F] 0) as Hrun.
  change (permuted_reads [0x3F] (length [0x3F]) 0) with (@nil Z, false)
    in Hrun.
  cbn [fst snd wire_bytes flat_map app] in Hrun.
  rewrite app_nil_r in Hrun.
  apply (runs_on_machine m Hrun).
Qed.

Lemma land_7_uint8 (val : Z) :
  uint8_t (Z.land (uint8_t val) 0x07) = Z.land val 0x07.
Proof.
  unfold uint8_t. change 0x07 with (Z.ones 3).
  rewrite !Z.land_ones by lia.
  change (2 ^ 8) with (2 ^ 3 * 2 ^ 5).
  rewrite (Z.rem_mul_r val) by lia.
  rewrite (Z.mul_comm (2 ^ 3)), Z.mod_add by lia.
  rewrite Z.mod_mod by lia.
  apply Z.mod_small.
  pose proof (Z.mod_pos_bound val (2 ^ 3)). lia.
Qed.

(** C5.  [brightness val] stores [val & 0b111], returns what it stored,
    and sends the Data command followed by the Display-control command,
    whose byte is [0x80 | 0x08 |] the new brightness. *)
Theorem brightness_masks_and_reissues (m : machine) (val : Z) :
  brightness val m
  = (Ok (Z.land val 0x07),
     mkMachine
       (mkTM1637 (clk_ (self m)) (dio_ (self m)) (Z.land val 0x07))
       (sdk_log m
          ++ data_command (self m)
          ++ start_condition (self m)
          ++ byte_frame (self m) (Z.lor (Z.lor 0x80 0x08) (Z.land val 0x07))
          ++ stop_condition (self m))) /\
  brightness_ (self (snd (brightness val m))) = Z.land val 0x07.
Proof.
  assert (Hrun :
    runs (brightness val) (self m) (Ok (Z.land val 0x07))
      (mkTM1637 (clk_ (self m)) (dio_ (self m)) (Z.land val 0x07))
      (data_command (self m)
         ++ start_condition (self m)
         ++ byte_frame (self m) (Z.lor (Z.lor 0x80 0x08) (Z.land val 0x07))
         ++ stop_condition (self m))).
  { unfold brightness. rewrite land_7_uint8.
    set (d' := mkTM1637 _ _ _).
    eapply runs_events; cycle 1.
    - eapply runs_bind; [apply runs_set_brightness_|].
      eapply runs_bind; [apply (runs__write_data_cmd d')|].
      eapply runs_bind; [apply (runs__write_dsp_ctrl d')|].
      apply runs_this_bind. apply runs_ret.
    - cbn [app]. rewrite app_nil_r. reflexivity. }
  pose proof (runs_on_machine m Hrun) as E.
  split; [exact E|]. rewrite E. reflexivity.
Qed.

(** C9.  [show] never reads its [colon] argument: from the same driver
    state, the two calls end alike, log the same SDK calls and leave the
    same object. *)
Theorem show_ignores_colon (m : machine) (str : string) (b1 b2 : bool) :
  show str b1 m = show str b2 m.
Proof. reflexivity. Qed.

(** C3, at the value 1000000: its decimal text has seven characters,
    [encode_string] returns seven segments, and the seventh turn of the
    loop of [write] asks for [segments.at(8)], which throws; the call
    ends there, after six segment bytes, with no stop condition and no
    Display-control command. *)
Theorem number_1000000_throws (m : machine) :
  setw 6 (put_dec (uint32_t 1000000)) = "1000000"%string /\
  encode_string "1000000"
  = Ok [0x06; 0x3F; 0x3F; 0x3F; 0x3F; 0x3F; 0x3F] /\
  permuted_index 6 = 8 /\
  number 1000000 m
  = (OutOfRange,
     logged m
       (data_command (self m)
          ++ start_condition (self m)
          ++ byte_frame (self m) 0xC0
          ++ wire_bytes (self m) [0x3F; 0x3F; 0x06; 0x3F; 0x3F; 0x3F])).
Proof.
  repeat split; try reflexivity.
  unfold number.
  change (encode_string (setw 6 (put_dec (uint32_t 1000000))))
    with (Ok [0x06; 0x3F; 0x3F; 0x3F; 0x3F; 0x3F; 0x3F]).
  pose proof (runs_write (self m)
                [0x06; 0x3F; 0x3F; 0x3F; 0x3F; 0x3F; 0x3F] 0) as Hrun.
  change (permuted_reads [0x06; 0x3F; 0x3F; 0x3F; 0x3F; 0x3F; 0x3F]
            (length [0x06; 0x3F; 0x3F; 0x3F; 0x3F; 0x3F; 0x3F]) 0)
    with ([0x3F; 0x3F; 0x06; 0x3F; 0x3F; 0x3F], false) in Hrun.
  cbn [fst snd] in Hrun. rewrite app_nil_r in Hrun.
  apply (runs_on_machine m).
  eapply runs_events; [|eapply runs_bind; [apply runs_lift|exact Hrun]].
  reflexivity.
Qed.

End DriverProperties.

Section FurtherProperties.

(** X1.  [write] on a sequence whose length is a multiple of three (up to
    768 entries): the whole transaction goes out, the segment bytes in groups
    of three, each group last entry first. *)
Theorem write_multiple_of_three (m : machine) (segments : Segments) (pos : Z) :
  (length segments mod 3 = 0)%nat ->
  (length segments <= 768)%nat ->
  write segments pos m
  = (Ok tt,
     logged m
       (data_command (self m)
          ++ start_condition (self m)
          ++ byte_frame (self m) (Z.lor 0xC0 (Z.min (uint8_t pos) 5))
          ++ wire_bytes (self m)
               (map (fun i => nth (source_index i) segments 0)
                    (seq 0 (length segments)))
          ++ stop_condition (self m)
          ++ display_control (self m))).
Proof.
  intros Hmod Hmax.
  pose proof (runs_write (self m) segments pos) as Hrun.
  rewrite permuted_reads_multiple_of_three in Hrun by assumption.
  cbn [fst snd] in Hrun.
  apply (runs_on_machine m Hrun).
Qed.

Lemma write_multiple_of_three_witness :
  (length [0x06; 0x5B; 0x4F] mod 3 = 0)%nat /\
  (length [0x06; 0x5B; 0x4F] <= 768)%nat /\
  fst (write [0x06; 0x5B; 0x4F] 9 (mkMachine (mkTM1637 2 3 7) [])) = Ok tt.
Proof.
  assert (Hmax : (length [0x06; 0x5B; 0x4F] <= 768)%nat) by (simpl; lia).
  split; [reflexivity|]. split; [exact Hmax|].
  rewrite (@write_multiple_of_three (mkMachine (mkTM1637 2 3 7) [])
             [0x06; 0x5B; 0x4F] 9 eq_refl Hmax).
  reflexivity.
Defined.

(** X2.  [write] returns normally exactly on the sequences whose length is
    a multiple of three and at most 768; on every other sequence an element
    access throws. *)
Theorem write_completes_iff (m : machine) (segments : Segments) (pos : Z) :
  Z.of_nat (length segments) < 2 ^ 31 ->
  (fst (write segments pos m) = Ok tt <->
   (length segments mod 3 = 0)%nat /\ (length segments <= 768)%nat) /\
  (fst (write segments pos m) = OutOfRange <->
   (length segments mod 3 <> 0)%nat \/ (768 < length segments)%nat).
Proof.
  intro Hsize.
  pose proof (runs_write (self m) segments pos) as Hrun.
  apply (runs_on_machine m) in Hrun.
  destruct (Nat.eq_dec (length segments mod 3) 0) as [Hmod|Hmod];
    [destruct (le_lt_dec (length segments) 768) as [Hmax|Hmax]|].
  - rewrite permuted_reads_multiple_of_three in Hrun by assumption.
    rewrite Hrun. clear Hrun. cbn [fst snd]. split; split; intro H.
    + split; assumption.
    + reflexivity.
    + discriminate H.
    + destruct H; [contradiction|lia].
  - rewrite (surjective_pairing (permuted_reads _ _ _)) in Hrun.
    rewrite permuted_reads_otherwise in Hrun by (auto; lia).
    rewrite Hrun. clear Hrun. cbn [fst snd]. split; split; intro H.
    + discriminate H.
    + lia.
    + now right.
    + reflexivity.
  - rewrite (surjective_pairing (permuted_reads _ _ _)) in Hrun.
    rewrite permuted_reads_otherwise in Hrun by (auto; lia).
    rewrite Hrun. clear Hrun. cbn [fst snd]. split; split; intro H.
    + discriminate H.
    + tauto.
    + now left.
    + reflexivity.
Qed.

Lemma write_completes_iff_witness :
  Z.of_nat (length [0x06; 0x5B; 0x4F; 0x66]) < 2 ^ 31 /\
  fst (write [0x06; 0x5B; 0x4F; 0x66] 0 (mkMachine (mkTM1637 2 3 7) []))
  = OutOfRange.
Proof.
  assert (Hsize : Z.of_nat (length [0x06; 0x5B; 0x4F; 0x66]) < 2 ^ 31)
    by reflexivity.
  split; [exact Hsize|].
  apply (proj2 (@write_completes_iff (mkMachine (mkTM1637 2 3 7) [])
                  [0x06; 0x5B; 0x4F; 0x66] 0 Hsize)).
  left. discriminate.
Defined.

(** X3.  The frame of a byte tells the byte: two bytes with the same frame
    agree on their eight bits. *)
Theorem byte_frame_inj (d : TM1637) (a b : Z) :
  byte_frame d a = byte_frame d b -> uint8_t a = uint8_t b.
Proof.
  unfold byte_frame, bit_slot.
  cbn [seq flat_map app Z.of_nat Pos.of_succ_nat Pos.succ].
  intro H. injection H as H0 H1 H2 H3 H4 H5 H6 H7.
  unfold uint8_t. apply Z.bits_inj'. intros n Hn.
  destruct (Z.lt_ge_cases n 8) as [Hlow|Hhigh].
  - rewrite !Z.mod_pow2_bits_low by lia.
    assert (Hcases : n = 0 \/ n = 1 \/ n = 2 \/ n = 3 \/
                     n = 4 \/ n = 5 \/ n = 6 \/ n = 7) by lia.
    destruct Hcases as [->|[->|[->|[->|[->|[->|[->| ->]]]]]]]; assumption.
  - rewrite !Z.mod_pow2_bits_high by lia. reflexivity.
Qed.

Lemma byte_frame_inj_witness :
  byte_frame (mkTM1637 2 3 7) 0x40 = byte_frame (mkTM1637 2 3 7) 0x140 /\
  uint8_t 0x40 = uint8_t 0x140.
Proof.
  assert (H : byte_frame (mkTM1637 2 3 7) 0x40
              = byte_frame (mkTM1637 2 3 7) 0x140) by reflexivity.
  split; [exact H|]. exact (byte_frame_inj H).
Defined.

(** X4.  The constructor: both pins initialised, set to output, pulled up and
    driven low; the brightness clamped to 7; then the Data command and
    the Display-control command. *)
Theorem TM1637_ctor_initialises (clk dio brightness : Z) (log : list sdk_call) :
  let d := mkTM1637 (uint8_t clk) (uint8_t dio)
                    (Z.min 7 (uint8_t brightness)) in
  TM1637_ctor clk dio brightness log
  = (Ok tt,
     mkMachine d
       (log
          ++ [ gpio_init (clk_ d); gpio_set_dir (clk_ d) true;
               gpio_pull_up (clk_ d);
               gpio_init (dio_ d); gpio_set_dir (dio_ d) true;
               gpio_pull_up (dio_ d);
               gpio_put (clk_ d) false; gpio_put (dio_ d) false ]
          ++ data_command d
          ++ display_control d)) /\
  0 <= brightness_ d <= 7.
Proof.
  intro d. split.
  - unfold TM1637_ctor. fold d.
    assert (Hrun : forall c : M unit,
              c = (call (gpio_init (clk_ d)) ;;
                   call (gpio_set_dir (clk_ d) true) ;;
                   call (gpio_pull_up (clk_ d)) ;;
                   call (gpio_init (dio_ d)) ;;
                   call (gpio_set_dir (dio_ d) true) ;;
                   call (gpio_pull_up (dio_ d)) ;;
                   call (gpio_put (clk_ d) false) ;;
                   call (gpio_put (dio_ d) false) ;;
                   _write_data_cmd ;;
                   _write_dsp_ctrl) ->
              runs c d (Ok tt) d
                ([ gpio_init (clk_ d); gpio_set_dir (clk_ d) true;
                   gpio_pull_up (clk_ d);
                   gpio_init (dio_ d); gpio_set_dir (dio_ d) true;
                   gpio_pull_up (dio_ d);
                   gpio_put (clk_ d) false; gpio_put (dio_ d) false ]
                   ++ data_command d ++ display_control d)).
    { intros c ->. eapply runs_events; cycle 1.
      - do 8 (eapply runs_bind; [apply runs_call|]).
        eapply runs_bind; [apply runs__write_data_cmd|].
        apply runs__write_dsp_ctrl.
      - reflexivity. }
    apply (Hrun _ eq_refl).
  - subst d. cbn [brightness_]. unfold uint8_t.
    pose proof (Z.mod_pos_bound brightness (2 ^ 8)). lia.
Qed.

End FurtherProperties.

(* ================================================================== *)
(** * The text of numbers                                              *)
(* ================================================================== *)

Section DecimalText.

Lemma digit_cases (a : N) :
  (a < 10)%N ->
  a = 0%N \/ a = 1%N \/ a = 2%N \/ a = 3%N \/ a = 4%N \/
  a = 5%N \/ a = 6%N \/ a = 7%N \/ a = 8%N \/ a = 9%N.
Proof. lia. Qed.

Ltac each_digit a H :=
  destruct (digit_cases H) as [->|[->|[->|[->|[->|[->|[->|[->|[->| ->]]]]]]]]].

Lemma dec_digits_lt_10 (k : nat) (n : N) :
  Forall (fun a => (a < 10)%N) (dec_digits k n).
Proof.
  induction k as [|k IH]; simpl; constructor; [|exact IH].
  apply N.mod_lt. discriminate.
Qed.

Lemma length_dec_digits (k : nat) (n : N) : length (dec_digits k n) = k.
Proof. induction k as [|k IH]; simpl; congruence. Qed.

Lemma usize_dec_uint (digits : list N) :
  DecimalPos.Unsigned.usize (dec_uint digits) = N.of_nat (length digits).
Proof.
  induction digits as [|a digits IH]; [reflexivity|].
  cbn [dec_uint fold_right length]. fold (dec_uint digits).
  rewrite Nat2N.inj_succ, <- IH.
  unfold dec_digit.
  destruct a as [|[[[[]|[]|]|[[]|[]|]|]|[[[]|[]|]|[[]|[]|]|]|]]; reflexivity.
Qed.

Lemma of_lu_rev_dec_digit (a : N) (rest : Decimal.uint) :
  (a < 10)%N ->
  DecimalPos.Unsigned.of_lu (Decimal.rev (dec_digit a rest))
  = (DecimalPos.Unsigned.of_lu (Decimal.rev rest)
     + a * 10 ^ DecimalPos.Unsigned.usize rest)%N.
Proof.
  intro Ha. each_digit a Ha; unfold dec_digit, Decimal.rev;
    cbn [Decimal.revapp]; rewrite DecimalPos.Unsigned.of_lu_revapp;
    reflexivity.
Qed.

Lemma of_uint_dec_digits (k : nat) (n : N) :
  N.of_uint (dec_uint (dec_digits k n)) = (n mod 10 ^ N.of_nat k)%N.
Proof.
  unfold N.of_uint. rewrite DecimalPos.Unsigned.of_uint_alt.
  induction k as [|k IH].
  - simpl. now rewrite N.mod_1_r.
  - cbn [dec_digits dec_uint fold_right]. fold (dec_uint (dec_digits k n)).
    rewrite of_lu_rev_dec_digit by (apply N.mod_lt; discriminate).
    rewrite IH, usize_dec_uint, length_dec_digits.
    rewrite Nat2N.inj_succ, N.pow_succ_r', (N.mul_comm 10).
    rewrite N.Div0.mod_mul_r. lia.
Qed.

Lemma unorm_dec_digit (a : N) (rest : Decimal.uint) :
  (0 < a < 10)%N ->
  Decimal.unorm (dec_digit a rest) = dec_digit a rest.
Proof.
  intros [Hpos Ha]. each_digit a Ha; try reflexivity. lia.
Qed.

(** The decimal numeral of a number with exactly [k + 1] digits. *)
Lemma to_uint_dec_digits (k : nat) (n : N) :
  (10 ^ N.of_nat k <= n < 10 ^ N.of_nat (S k))%N \/ (k = O /\ n < 10)%N ->
  N.to_uint n = dec_uint (dec_digits (S k) n).
Proof.
  intro Hn.
  assert (Hlt : (n < 10 ^ N.of_nat (S k))%N).
  { destruct Hn as [[_ H]|[-> H]]; [exact H|exact H]. }
  rewrite <- (N.mod_small n (10 ^ N.of_nat (S k))) at 1 by exact Hlt.
  rewrite <- of_uint_dec_digits, DecimalN.Unsigned.to_of.
  cbn [dec_digits dec_uint fold_right].
  destruct (N.eq_dec n 0) as [->|Hn0].
  - destruct Hn as [[H _]|[-> _]].
    + exfalso. assert (0 < 10 ^ N.of_nat k)%N; [|lia].
      apply N.neq_0_lt_0, N.pow_nonzero. discriminate.
    + reflexivity.
  - apply unorm_dec_digit.
    rewrite Nat2N.inj_succ, N.pow_succ_r' in Hlt.
    assert (Hpow : (0 < 10 ^ N.of_nat k)%N)
      by (apply N.neq_0_lt_0, N.pow_nonzero; discriminate).
    assert (Hq : (n / 10 ^ N.of_nat k < 10)%N)
      by (apply N.Div0.div_lt_upper_bound; lia).
    rewrite N.mod_small by exact Hq. split; [|exact Hq].
    destruct Hn as [[H _]|[-> _]].
    + apply N.div_str_pos. lia.
    + simpl. rewrite N.div_1_r. lia.
Qed.

Lemma string_of_dec_uint (digits : list N) :
  Forall (fun a => (a < 10)%N) digits ->
  list_ascii_of_string (DecimalString.NilEmpty.string_of_uint (dec_uint digits))
  = map digit_char digits.
Proof.
  induction 1 as [|a digits Ha _ IH]; [reflexivity|].
  cbn [dec_uint fold_right map]. fold (dec_uint digits).
  rewrite <- IH. each_digit a Ha; reflexivity.
Qed.

Lemma put_dec_digits (k : nat) (n : Z) :
  10 ^ Z.of_nat k <= n < 10 ^ Z.of_nat (S k) \/ (k = O /\ 0 <= n < 10) ->
  list_ascii_of_string (put_dec n)
  = map digit_char (dec_digits (S k) (Z.to_N n)).
Proof.
  intro Hn. unfold put_dec.
  assert (Hpow : forall j : nat, Z.of_N (10 ^ N.of_nat j) = 10 ^ Z.of_nat j).
  { intro j. rewrite N2Z.inj_pow, nat_N_Z. reflexivity. }
  assert (H0 : 0 <= n).
  { destruct Hn as [[H _]|[_ [H _]]]; [|exact H].
    pose proof (Z.pow_nonneg 10 (Z.of_nat k)). lia. }
  rewrite (@to_uint_dec_digits k).
  - rewrite <- string_of_dec_uint by apply dec_digits_lt_10.
    cbn [dec_digits dec_uint fold_right].
    assert (Ha : ((Z.to_N n / 10 ^ N.of_nat k) mod 10 < 10)%N)
      by (apply N.mod_lt; discriminate).
    each_digit ((Z.to_N n / 10 ^ N.of_nat k) mod 10)%N Ha; reflexivity.
  - pose proof (Hpow k). pose proof (Hpow (S k)).
    destruct Hn as [Hn|[-> Hn]]; [left|right]; lia.
Qed.

End DecimalText.

Section PlainText.

Lemma list_ascii_of_string_app (s1 s2 : string) :
  list_ascii_of_string (s1 ++ s2)
  = list_ascii_of_string s1 ++ list_ascii_of_string s2.
Proof. induction s1 as [|ch s1 IH]; simpl; congruence. Qed.

Lemma setw_chars (w : nat) (text : string) :
  list_ascii_of_string (setw w text)
  = repeat " "%char (w - length (list_ascii_of_string text))
      ++ list_ascii_of_string text.
Proof.
  unfold setw.
  rewrite list_ascii_of_string_app, list_ascii_of_string_of_list_ascii.
  now rewrite length_list_ascii_of_string.
Qed.

Lemma count_non_dot_all (str : list ascii) :
  forallb non_dot str = true -> count_non_dot str = length str.
Proof.
  induction str as [|ch rest IH]; simpl; [reflexivity|].
  intro H. apply andb_true_iff in H as [Hch Hrest].
  apply negb_true_iff in Hch. rewrite Hch, IH by exact Hrest. reflexivity.
Qed.

(** A text without ['.']: one slot per character, blanks up to six. *)
Lemma encode_chars_no_dot (str : list ascii) :
  forallb non_dot str = true ->
  encode_chars str
  = Ok (map encode_char str ++ repeat blank (6 - length str)).
Proof.
  intro Hno. rewrite encode_chars_glyphs.
  - now rewrite glyphs_no_dot, count_non_dot_all.
  - destruct str as [|ch rest]; [reflexivity|].
    simpl in Hno. apply andb_true_iff in Hno as [Hch _].
    now apply negb_true_iff in Hch.
Qed.

Lemma digit_char_encodes (a : N) :
  (a < 10)%N ->
  non_dot (digit_char a) = true /\
  encode_char (digit_char a) = encode_digit (Z.of_N a).
Proof.
  intro Ha.
  destruct (digit_cases Ha) as [->|[->|[->|[->|[->|[->|[->|[->|[->| ->]]]]]]]]];
    split; reflexivity.
Qed.

Lemma forallb_non_dot_app (l1 l2 : list ascii) :
  forallb non_dot l1 = true -> forallb non_dot l2 = true ->
  forallb non_dot (l1 ++ l2) = true.
Proof. intros H1 H2. now rewrite forallb_app, H1, H2. Qed.

Lemma forallb_non_dot_spaces (k : nat) :
  forallb non_dot (repeat " "%char k) = true.
Proof. induction k as [|k IH]; simpl; [reflexivity|exact IH]. Qed.

Lemma forallb_non_dot_digits (digits : list N) :
  Forall (fun a => (a < 10)%N) digits ->
  forallb non_dot (map digit_char digits) = true.
Proof.
  induction 1 as [|a digits Ha _ IH]; simpl; [reflexivity|].
  now rewrite (proj1 (digit_char_encodes Ha)), IH.
Qed.

Lemma map_encode_digits (digits : list N) :
  Forall (fun a => (a < 10)%N) digits ->
  map encode_char (map digit_char digits)
  = map (fun a => encode_digit (Z.of_N a)) digits.
Proof.
  induction 1 as [|a digits Ha _ IH]; simpl; [reflexivity|].
  now rewrite (proj2 (digit_char_encodes Ha)), IH.
Qed.

(** The segments [number] hands to [write], for a value of [k + 1]
    decimal digits. *)
Lemma encode_decimal_text (k : nat) (n : Z) :
  10 ^ Z.of_nat k <= n < 10 ^ Z.of_nat (S k) \/ (k = O /\ 0 <= n < 10) ->
  encode_string (setw 6 (put_dec n))
  = Ok (repeat blank (5 - k)
          ++ map (fun a => encode_digit (Z.of_N a))
                 (dec_digits (S k) (Z.to_N n))).
Proof.
  intro Hn. unfold encode_string.
  rewrite setw_chars, (put_dec_digits Hn), length_map, length_dec_digits.
  rewrite encode_chars_no_dot.
  - rewrite map_app, map_encode_digits by apply dec_digits_lt_10.
    rewrite map_repeat, length_app, repeat_length, length_map,
      length_dec_digits.
    change (encode_char " "%char) with blank.
    replace (6 - (6 - S k + S k))%nat with O by lia.
    replace (6 - S k)%nat with (5 - k)%nat by lia.
    cbn [repeat]. now rewrite app_nil_r.
  - apply forallb_non_dot_app;
      [apply forallb_non_dot_spaces|].
    apply forallb_non_dot_digits, dec_digits_lt_10.
Qed.

Lemma digit_Z (n : Z) (j : nat) :
  0 <= n ->
  Z.of_N ((Z.to_N n / 10 ^ N.of_nat j) mod 10) = (n / 10 ^ Z.of_nat j) mod 10.
Proof.
  intro Hn.
  rewrite N2Z.inj_mod, N2Z.inj_div, N2Z.inj_pow, Z2N.id, nat_N_Z by exact Hn.
  reflexivity.
Qed.

End PlainText.

(** The powers of ten that bound a [uint32_t], as numerals. *)
Ltac decimal_powers :=
  change (10 ^ Z.of_nat 0) with 1 in *;
  change (10 ^ Z.of_nat 1) with 10 in *;
  change (10 ^ Z.of_nat 2) with 100 in *;
  change (10 ^ Z.of_nat 3) with 1000 in *;
  change (10 ^ Z.of_nat 4) with 10000 in *;
  change (10 ^ Z.of_nat 5) with 100000 in *;
  change (10 ^ Z.of_nat 6) with 1000000 in *;
  change (10 ^ Z.of_nat 7) with 10000000 in *;
  change (10 ^ Z.of_nat 8) with 100000000 in *;
  change (10 ^ Z.of_nat 9) with 1000000000 in *;
  change (10 ^ Z.of_nat 10) with 10000000000 in *.

Section NumberShown.

Lemma uint32_t_range (num : Z) : 0 <= uint32_t num < 2 ^ 32.
Proof. unfold uint32_t. apply Z.mod_pos_bound. reflexivity. Qed.

Lemma fst_write (m : machine) (segments : Segments) (pos : Z) :
  fst (write segments pos m)
  = if snd (permuted_reads segments (length segments) 0)
    then Ok tt else OutOfRange.
Proof.
  pose proof (runs_write (self m) segments pos) as Hrun.
  apply (runs_on_machine m) in Hrun. now rewrite Hrun.
Qed.

Lemma number_display_digits (k : nat) (n : Z) :
  (k < 6)%nat ->
  10 ^ Z.of_nat k <= n < 10 ^ Z.of_nat (S k) \/ (k = O /\ 0 <= n < 10) ->
  repeat blank (5 - k)
    ++ map (fun a => encode_digit (Z.of_N a)) (dec_digits (S k) (Z.to_N n))
  = number_display n.
Proof.
  intros Hk Hn.
  assert (H0 : 0 <= n).
  { destruct Hn as [[H _]|[_ [H _]]]; [|exact H].
    pose proof (Z.pow_nonneg 10 (Z.of_nat k)). lia. }
  unfold number_display.
  destruct k as [|[|[|[|[|[|k]]]]]]; [| | | | | |exfalso; clear - Hk; lia];
    cbn [map dec_digits repeat app Nat.sub]; rewrite !(digit_Z _ H0);
    cbn [Z.of_nat Pos.of_succ_nat Pos.succ];
    change (0 <? 5) with true; change (0 <? 4) with true;
    change (0 <? 3) with true; change (0 <? 2) with true;
    change (0 <? 1) with true; change (0 <? 0) with false;
    cbn [andb];
    change (10 ^ 5) with 100000 in *; change (10 ^ 4) with 10000 in *;
    change (10 ^ 3) with 1000 in *; change (10 ^ 2) with 100 in *;
    change (10 ^ 1) with 10 in *; change (10 ^ 0) with 1 in *;
    change (10 ^ 6) with 1000000 in *;
    repeat match goal with
      | |- context [?a <? ?b] =>
          destruct (Z.ltb_spec a b); [try lia|try lia]
      end; reflexivity.
Qed.

(** X12.  [number] on a value below 1000000 completes and shows its
    decimal digits right-aligned: the slot of each digit is [encode_digit]
    of the digit, the slots to the left of the first digit are blank, and
    the six bytes go out in the order 2, 1, 0, 5, 4, 3 of [write]. *)
Theorem number_shows_digits (m : machine) (num : Z) :
  uint32_t num < 1000000 ->
  encode_string (setw 6 (put_dec (uint32_t num)))
  = Ok (number_display (uint32_t num)) /\
  number num m
  = (Ok tt,
     logged m
       (data_command (self m)
          ++ start_condition (self m)
          ++ byte_frame (self m) 0xC0
          ++ wire_bytes (self m)
               (map (fun i => nth (source_index i)
                                  (number_display (uint32_t num)) 0)
                    (seq 0 6))
          ++ stop_condition (self m)
          ++ display_control (self m))).
Proof.
  intro Hsmall. pose proof (uint32_t_range num) as Hrange.
  set (n := uint32_t num) in *.
  assert (Hk : exists k : nat, (k < 6)%nat /\
            (10 ^ Z.of_nat k <= n < 10 ^ Z.of_nat (S k)
             \/ (k = O /\ 0 <= n < 10))).
  { destruct (Z.lt_ge_cases n 10); [exists 0%nat; split; [lia|right; lia]|].
    destruct (Z.lt_ge_cases n 100);
      [exists 1%nat; split; [lia|left; decimal_powers; lia]|].
    destruct (Z.lt_ge_cases n 1000);
      [exists 2%nat; split; [lia|left; decimal_powers; lia]|].
    destruct (Z.lt_ge_cases n 10000);
      [exists 3%nat; split; [lia|left; decimal_powers; lia]|].
    destruct (Z.lt_ge_cases n 100000);
      [exists 4%nat; split; [lia|left; decimal_powers; lia]|].
    exists 5%nat; split; [lia|left; decimal_powers; lia]. }
  destruct Hk as (k & Hk & Hn).
  assert (Henc : encode_string (setw 6 (put_dec n)) = Ok (number_display n)).
  { rewrite (encode_decimal_text Hn).
    now rewrite (number_display_digits Hk Hn). }
  split; [exact Henc|].
  unfold number. fold n. rewrite Henc.
  pose proof (runs_write (self m) (number_display n) 0) as Hrun.
  rewrite permuted_reads_multiple_of_three in Hrun
    by (unfold number_display; simpl; lia).
  cbn [fst snd] in Hrun.
  apply (runs_on_machine m).
  eapply runs_events; [|eapply runs_bind; [apply runs_lift|exact Hrun]].
  reflexivity.
Qed.

Lemma number_shows_digits_witness :
  uint32_t 1234 < 1000000 /\
  number_display (uint32_t 1234)
  = [blank; blank; encode_digit 1; encode_digit 2; encode_digit 3;
     encode_digit 4] /\
  fst (number 1234 (mkMachine (mkTM1637 2 3 7) [])) = Ok tt.
Proof.
  assert (H : uint32_t 1234 < 1000000) by reflexivity.
  split; [exact H|]. split; [reflexivity|].
  rewrite (proj2 (@number_shows_digits (mkMachine (mkTM1637 2 3 7) [])
                    1234 H)).
  reflexivity.
Defined.

Lemma decimal_width (n : Z) :
  0 <= n < 2 ^ 32 ->
  exists k : nat,
    (k < 10)%nat /\
    (10 ^ Z.of_nat k <= n < 10 ^ Z.of_nat (S k) \/ (k = O /\ 0 <= n < 10)).
Proof.
  intro Hn. change (2 ^ 32) with 4294967296 in Hn.
  destruct (Z.lt_ge_cases n 10); [exists 0%nat; split; [lia|right; lia]|].
  destruct (Z.lt_ge_cases n 100);
    [exists 1%nat; split; [lia|left; decimal_powers; lia]|].
  destruct (Z.lt_ge_cases n 1000);
    [exists 2%nat; split; [lia|left; decimal_powers; lia]|].
  destruct (Z.lt_ge_cases n 10000);
    [exists 3%nat; split; [lia|left; decimal_powers; lia]|].
  destruct (Z.lt_ge_cases n 100000);
    [exists 4%nat; split; [lia|left; decimal_powers; lia]|].
  destruct (Z.lt_ge_cases n 1000000);
    [exists 5%nat; split; [lia|left; decimal_powers; lia]|].
  destruct (Z.lt_ge_cases n 10000000);
    [exists 6%nat; split; [lia|left; decimal_powers; lia]|].
  destruct (Z.lt_ge_cases n 100000000);
    [exists 7%nat; split; [lia|left; decimal_powers; lia]|].
  destruct (Z.lt_ge_cases n 1000000000);
    [exists 8%nat; split; [lia|left; decimal_powers; lia]|].
  exists 9%nat; split; [lia|left; decimal_powers; lia].
Qed.

(** X13.  [number] returns exactly on the values whose decimal text has
    at most six or exactly nine digits; on every other value ([uint32_t]
    values of seven, eight or ten digits) an access in [write] throws. *)
Theorem number_completes_iff (m : machine) (num : Z) :
  (fst (number num m) = Ok tt <->
   uint32_t num < 1000000 \/ 100000000 <= uint32_t num < 1000000000) /\
  (fst (number num m) = OutOfRange <->
   1000000 <= uint32_t num < 100000000 \/ 1000000000 <= uint32_t num).
Proof.
  pose proof (uint32_t_range num) as Hrange.
  destruct (decimal_width Hrange) as (k & Hk & Hn).
  unfold number. rewrite (encode_decimal_text Hn).
  set (segments := repeat blank (5 - k) ++ _).
  change (fst ((segs <- lift (Ok segments) ;; write segs 0) m))
    with (fst (write segments 0 m)).
  rewrite fst_write.
  assert (Hlen : length segments = Nat.max 6 (S k)).
  { subst segments.
    rewrite length_app, repeat_length, length_map, length_dec_digits. lia. }
  assert (Hsize : Z.of_nat (length segments) < 2 ^ 31).
  { rewrite Hlen. change (2 ^ 31) with 2147483648. lia. }
  clearbody segments. clear Hrange.
  assert (Hn' : 0 <= uint32_t num < 10 /\ k = O
                \/ 10 ^ Z.of_nat k <= uint32_t num < 10 ^ Z.of_nat (S k))
    by tauto.
  clear Hn.
  destruct k as [|[|[|[|[|[|[|[|[|[|k]]]]]]]]]];
    [decimal_powers..|exfalso; lia].
  1-6: rewrite permuted_reads_multiple_of_three
         by (rewrite Hlen; simpl; lia || reflexivity);
       cbn [snd]; split; split; intro H;
         try discriminate H; try reflexivity; lia.
  3: rewrite permuted_reads_multiple_of_three
         by (rewrite Hlen; simpl; lia || reflexivity);
       cbn [snd]; split; split; intro H;
         try discriminate H; try reflexivity; lia.
  all: rewrite permuted_reads_otherwise
         by (try exact Hsize; left; rewrite Hlen; simpl; lia);
       split; split; intro H;
         try discriminate H; try reflexivity; lia.
Qed.

End NumberShown.

Section HexadecimalText.

Lemma hex_digit_cases (a : N) :
  (a < 16)%N ->
  a = 0%N \/ a = 1%N \/ a = 2%N \/ a = 3%N \/ a = 4%N \/ a = 5%N \/
  a = 6%N \/ a = 7%N \/ a = 8%N \/ a = 9%N \/ a = 10%N \/ a = 11%N \/
  a = 12%N \/ a = 13%N \/ a = 14%N \/ a = 15%N.
Proof. lia. Qed.

Ltac each_hex_digit a H :=
  destruct (hex_digit_cases H)
    as [->|[->|[->|[->|[->|[->|[->|[->|[->|[->|[->|[->|[->|[->|[->| ->
       ]]]]]]]]]]]]]]].

Lemma hex_digits_lt_16 (k : nat) (n : N) :
  Forall (fun a => (a < 16)%N) (hex_digits k n).
Proof.
  induction k as [|k IH]; simpl; constructor; [|exact IH].
  apply N.mod_lt. discriminate.
Qed.

Lemma length_hex_digits (k : nat) (n : N) : length (hex_digits k n) = k.
Proof. induction k as [|k IH]; simpl; congruence. Qed.

Lemma usize_hex_uint (digits : list N) :
  Forall (fun a => (a < 16)%N) digits ->
  HexadecimalPos.Unsigned.usize (hex_uint digits) = N.of_nat (length digits).
Proof.
  induction 1 as [|a digits Ha _ IH]; [reflexivity|].
  cbn [hex_uint fold_right length]. fold (hex_uint digits).
  rewrite Nat2N.inj_succ, <- IH.
  each_hex_digit a Ha; reflexivity.
Qed.

Lemma of_lu_rev_hex_digit (a : N) (rest : Hexadecimal.uint) :
  (a < 16)%N ->
  HexadecimalPos.Unsigned.of_lu (Hexadecimal.rev (hex_digit a rest))
  = (HexadecimalPos.Unsigned.of_lu (Hexadecimal.rev rest)
     + a * 16 ^ HexadecimalPos.Unsigned.usize rest)%N.
Proof.
  intro Ha. each_hex_digit a Ha; unfold hex_digit, Hexadecimal.rev;
    cbn [Hexadecimal.revapp]; rewrite HexadecimalPos.Unsigned.of_lu_revapp;
    reflexivity.
Qed.

Lemma of_hex_uint_hex_digits (k : nat) (n : N) :
  N.of_hex_uint (hex_uint (hex_digits k n)) = (n mod 16 ^ N.of_nat k)%N.
Proof.
  unfold N.of_hex_uint. rewrite HexadecimalPos.Unsigned.of_uint_alt.
  induction k as [|k IH].
  - simpl. now rewrite N.mod_1_r.
  - cbn [hex_digits hex_uint fold_right]. fold (hex_uint (hex_digits k n)).
    rewrite of_lu_rev_hex_digit by (apply N.mod_lt; discriminate).
    rewrite IH, usize_hex_uint, length_hex_digits by apply hex_digits_lt_16.
    rewrite Nat2N.inj_succ, N.pow_succ_r', (N.mul_comm 16).
    rewrite N.Div0.mod_mul_r. lia.
Qed.

Lemma unorm_hex_digit (a : N) (rest : Hexadecimal.uint) :
  (0 < a < 16)%N ->
  Hexadecimal.unorm (hex_digit a rest) = hex_digit a rest.
Proof.
  intros [Hpos Ha]. each_hex_digit a Ha; try reflexivity. lia.
Qed.

(** The hexadecimal numeral of a number with exactly [k + 1] digits. *)
Lemma to_hex_uint_hex_digits (k : nat) (n : N) :
  (16 ^ N.of_nat k <= n < 16 ^ N.of_nat (S k))%N \/ (k = O /\ n < 16)%N ->
  N.to_hex_uint n = hex_uint (hex_digits (S k) n).
Proof.
  intro Hn.
  assert (Hlt : (n < 16 ^ N.of_nat (S k))%N).
  { destruct Hn as [[_ H]|[-> H]]; [exact H|exact H]. }
  rewrite <- (N.mod_small n (16 ^ N.of_nat (S k))) at 1 by exact Hlt.
  rewrite <- of_hex_uint_hex_digits, HexadecimalN.Unsigned.to_of.
  cbn [hex_digits hex_uint fold_right].
  destruct (N.eq_dec n 0) as [->|Hn0].
  - destruct Hn as [[H _]|[-> _]].
    + exfalso. assert (0 < 16 ^ N.of_nat k)%N; [|lia].
      apply N.neq_0_lt_0, N.pow_nonzero. discriminate.
    + reflexivity.
  - apply unorm_hex_digit.
    rewrite Nat2N.inj_succ, N.pow_succ_r' in Hlt.
    assert (Hpow : (0 < 16 ^ N.of_nat k)%N)
      by (apply N.neq_0_lt_0, N.pow_nonzero; discriminate).
    assert (Hq : (n / 16 ^ N.of_nat k < 16)%N)
      by (apply N.Div0.div_lt_upper_bound; lia).
    rewrite N.mod_small by exact Hq. split; [|exact Hq].
    destruct Hn as [[H _]|[-> _]].
    + apply N.div_str_pos. lia.
    + simpl. rewrite N.div_1_r. lia.
Qed.

Lemma string_of_hex_uint (digits : list N) :
  Forall (fun a => (a < 16)%N) digits ->
  list_ascii_of_string
    (HexadecimalString.NilEmpty.string_of_uint (hex_uint digits))
  = map hex_char digits.
Proof.
  induction 1 as [|a digits Ha _ IH]; [reflexivity|].
  cbn [hex_uint fold_right map]. fold (hex_uint digits).
  rewrite <- IH. each_hex_digit a Ha; reflexivity.
Qed.

Lemma put_hex_digits (k : nat) (n : Z) :
  16 ^ Z.of_nat k <= n < 16 ^ Z.of_nat (S k) \/ (k = O /\ 0 <= n < 16) ->
  list_ascii_of_string (put_hex n)
  = map hex_char (hex_digits (S k) (Z.to_N n)).
Proof.
  intro Hn. unfold put_hex.
  assert (Hpow : forall j : nat, Z.of_N (16 ^ N.of_nat j) = 16 ^ Z.of_nat j).
  { intro j. rewrite N2Z.inj_pow, nat_N_Z. reflexivity. }
  assert (H0 : 0 <= n).
  { destruct Hn as [[H _]|[_ [H _]]]; [|exact H].
    pose proof (Z.pow_nonneg 16 (Z.of_nat k)). lia. }
  rewrite (@to_hex_uint_hex_digits k).
  - rewrite <- string_of_hex_uint by apply hex_digits_lt_16.
    cbn [hex_digits hex_uint fold_right].
    assert (Ha : ((Z.to_N n / 16 ^ N.of_nat k) mod 16 < 16)%N)
      by (apply N.mod_lt; discriminate).
    each_hex_digit ((Z.to_N n / 16 ^ N.of_nat k) mod 16)%N Ha; reflexivity.
  - pose proof (Hpow k). pose proof (Hpow (S k)).
    destruct Hn as [Hn|[-> Hn]]; [left|right]; lia.
Qed.

Lemma hex_char_encodes (a : N) :
  (a < 16)%N ->
  non_dot (hex_char a) = true /\
  encode_char (hex_char a) = encode_digit (Z.of_N a).
Proof.
  intro Ha. each_hex_digit a Ha; split; reflexivity.
Qed.

Lemma forallb_non_dot_hex_digits (digits : list N) :
  Forall (fun a => (a < 16)%N) digits ->
  forallb non_dot (map hex_char digits) = true.
Proof.
  induction 1 as [|a digits Ha _ IH]; simpl; [reflexivity|].
  now rewrite (proj1 (hex_char_encodes Ha)), IH.
Qed.

Lemma map_encode_hex_digits (digits : list N) :
  Forall (fun a => (a < 16)%N) digits ->
  map encode_char (map hex_char digits)
  = map (fun a => encode_digit (Z.of_N a)) digits.
Proof.
  induction 1 as [|a digits Ha _ IH]; simpl; [reflexivity|].
  now rewrite (proj2 (hex_char_encodes Ha)), IH.
Qed.

Lemma encode_hexadecimal_text (k : nat) (n : Z) :
  16 ^ Z.of_nat k <= n < 16 ^ Z.of_nat (S k) \/ (k = O /\ 0 <= n < 16) ->
  encode_string (setw 6 (put_hex n))
  = Ok (repeat blank (5 - k)
          ++ map (fun a => encode_digit (Z.of_N a))
                 (hex_digits (S k) (Z.to_N n))).
Proof.
  intro Hn. unfold encode_string.
  rewrite setw_chars, (put_hex_digits Hn), length_map, length_hex_digits.
  rewrite encode_chars_no_dot.
  - rewrite map_app, map_encode_hex_digits by apply hex_digits_lt_16.
    rewrite map_repeat, length_app, repeat_length, length_map,
      length_hex_digits.
    change (encode_char " "%char) with blank.
    replace (6 - (6 - S k + S k))%nat with O by lia.
    replace (6 - S k)%nat with (5 - k)%nat by lia.
    cbn [repeat]. now rewrite app_nil_r.
  - apply forallb_non_dot_app;
      [apply forallb_non_dot_spaces|].
    apply forallb_non_dot_hex_digits, hex_digits_lt_16.
Qed.

Lemma hex_digit_Z (n : Z) (j : nat) :
  0 <= n ->
  Z.of_N ((Z.to_N n / 16 ^ N.of_nat j) mod 16) = (n / 16 ^ Z.of_nat j) mod 16.
Proof.
  intro Hn.
  rewrite N2Z.inj_mod, N2Z.inj_div, N2Z.inj_pow, Z2N.id, nat_N_Z by exact Hn.
  reflexivity.
Qed.

End HexadecimalText.

Ltac hexadecimal_powers :=
  change (16 ^ Z.of_nat 0) with 1 in *;
  change (16 ^ Z.of_nat 1) with 16 in *;
  change (16 ^ Z.of_nat 2) with 256 in *;
  change (16 ^ Z.of_nat 3) with 4096 in *;
  change (16 ^ Z.of_nat 4) with 65536 in *.

Section HexShown.

Lemma uint16_t_range (val : Z) : 0 <= uint16_t val < 65536.
Proof. unfold uint16_t. apply Z.mod_pos_bound. reflexivity. Qed.

Lemma hexadecimal_width (n : Z) :
  0 <= n < 65536 ->
  exists k : nat,
    (k < 4)%nat /\
    (16 ^ Z.of_nat k <= n < 16 ^ Z.of_nat (S k) \/ (k = O /\ 0 <= n < 16)).
Proof.
  intro Hn.
  destruct (Z.lt_ge_cases n 16); [exists 0%nat; split; [lia|right; lia]|].
  destruct (Z.lt_ge_cases n 256);
    [exists 1%nat; split; [lia|left; hexadecimal_powers; lia]|].
  destruct (Z.lt_ge_cases n 4096);
    [exists 2%nat; split; [lia|left; hexadecimal_powers; lia]|].
  exists 3%nat; split; [lia|left; hexadecimal_powers; lia].
Qed.

Lemma hex_display_digits (k : nat) (n : Z) :
  (k < 4)%nat ->
  16 ^ Z.of_nat k <= n < 16 ^ Z.of_nat (S k) \/ (k = O /\ 0 <= n < 16) ->
  repeat blank (5 - k)
    ++ map (fun a => encode_digit (Z.of_N a)) (hex_digits (S k) (Z.to_N n))
  = hex_display n.
Proof.
  intros Hk Hn.
  assert (H0 : 0 <= n).
  { destruct Hn as [[H _]|[_ [H _]]]; [|exact H].
    pose proof (Z.pow_nonneg 16 (Z.of_nat k)). lia. }
  unfold hex_display.
  destruct k as [|[|[|[|k]]]]; [| | | |exfalso; clear - Hk; lia];
    cbn [map hex_digits repeat app Nat.sub]; rewrite !(hex_digit_Z _ H0);
    cbn [Z.of_nat Pos.of_succ_nat Pos.succ];
    change (0 <? 5) with true; change (0 <? 4) with true;
    change (0 <? 3) with true; change (0 <? 2) with true;
    change (0 <? 1) with true; change (0 <? 0) with false;
    cbn [andb];
    change (16 ^ 5) with 1048576 in *; change (16 ^ 4) with 65536 in *;
    change (16 ^ 3) with 4096 in *; change (16 ^ 2) with 256 in *;
    change (16 ^ 1) with 16 in *; change (16 ^ 0) with 1 in *;
    repeat match goal with
      | |- context [?a <? ?b] =>
          destruct (Z.ltb_spec a b); [try lia|try lia]
      end; reflexivity.
Qed.

(** X14.  [hex] completes on every value and shows the hexadecimal
    digits of its low sixteen bits right-aligned: the slot of each digit is
    [encode_digit] of the digit, the slots to the left of the first digit
    (the first two at least) are blank. *)
Theorem hex_shows_digits (m : machine) (val : Z) :
  encode_string (setw 6 (put_hex (uint16_t val)))
  = Ok (hex_display (uint16_t val)) /\
  hex val m
  = (Ok tt,
     logged m
       (data_command (self m)
          ++ start_condition (self m)
          ++ byte_frame (self m) 0xC0
          ++ wire_bytes (self m)
               (map (fun i => nth (source_index i)
                                  (hex_display (uint16_t val)) 0)
                    (seq 0 6))
          ++ stop_condition (self m)
          ++ display_control (self m))).
Proof.
  pose proof (uint16_t_range val) as Hrange.
  set (n := uint16_t val) in *.
  destruct (hexadecimal_width Hrange) as (k & Hk & Hn).
  assert (Henc : encode_string (setw 6 (put_hex n)) = Ok (hex_display n)).
  { rewrite (encode_hexadecimal_text Hn).
    now rewrite (hex_display_digits Hk Hn). }
  split; [exact Henc|].
  unfold hex. fold n. rewrite Henc.
  pose proof (runs_write (self m) (hex_display n) 0) as Hrun.
  rewrite permuted_reads_multiple_of_three in Hrun
    by (unfold hex_display; simpl; lia).
  cbn [fst snd] in Hrun.
  apply (runs_on_machine m).
  eapply runs_events; [|eapply runs_bind; [apply runs_lift|exact Hrun]].
  reflexivity.
Qed.

End HexShown.

(* ================================================================== *)
(** * Further properties of the encoder and of [write]                 *)
(* ================================================================== *)

Section EncodeStringFurther.

Lemma is_dot_iff (ch : ascii) : is_dot ch = true <-> ch = "."%char.
Proof.
  split; [|now intros ->].
  destruct ch as [[] [] [] [] [] [] [] []]; vm_compute;
    intro H; try discriminate H; reflexivity.
Qed.

Lemma followed_by_dot_iff (str : string) :
  followed_by_dot (list_ascii_of_string str) = true
  <-> exists rest : string, str = String "."%char rest.
Proof.
  destruct str as [|ch rest]; simpl.
  - split; [discriminate|]. intros (r & H). discriminate H.
  - rewrite is_dot_iff. split.
    + intros ->. now exists rest.
    + intros (r & H). now inversion H.
Qed.

(** X7.  [encode_string] is defined exactly on the strings that do not begin
    with ['.']; there it returns one slot per character other than ['.'],
    six at least, and never fewer than the string asks for (nothing is
    truncated).  It never throws. *)
Theorem encode_string_defined_iff (str : string) :
  (encode_string str = Undefined
   <-> exists rest : string, str = String "."%char rest) /\
  ((forall rest : string, str <> String "."%char rest) ->
   exists segments : Segments,
     encode_string str = Ok segments /\
     length segments
     = Nat.max 6 (count_non_dot (list_ascii_of_string str))) /\
  encode_string str <> OutOfRange.
Proof.
  rewrite <- followed_by_dot_iff. unfold encode_string.
  destruct (followed_by_dot (list_ascii_of_string str)) eqn:Elead.
  - rewrite encode_chars_leading_dot by exact Elead.
    repeat split; auto; try discriminate.
    intro Hno. exfalso.
    apply followed_by_dot_iff in Elead as (rest & ->).
    now apply (Hno rest).
  - rewrite encode_chars_glyphs by exact Elead.
    repeat split; try discriminate.
    intros _. eexists. split; [reflexivity|].
    rewrite length_app, length_glyphs, repeat_length. lia.
Qed.

Lemma followed_by_dot_app_cons (pre post : list ascii) (ch : ascii) :
  followed_by_dot (pre ++ ch :: post)
  = match pre with [] => is_dot ch | c :: _ => is_dot c end.
Proof. destruct pre; reflexivity. Qed.

(** X8.  A second ['.'] right after a ['.'] changes nothing. *)
Theorem encode_string_repeated_dot (pre post : string) :
  encode_string (pre ++ ".." ++ post) = encode_string (pre ++ "." ++ post).
Proof.
  unfold encode_string. rewrite !list_ascii_of_string_app.
  cbn [list_ascii_of_string app].
  set (p := list_ascii_of_string pre). set (q := list_ascii_of_string post).
  destruct (followed_by_dot (p ++ "."%char :: q)) eqn:Elead.
  - rewrite !encode_chars_leading_dot; [reflexivity|exact Elead|].
    rewrite followed_by_dot_app_cons in *. exact Elead.
  - rewrite !encode_chars_glyphs;
      [|exact Elead|rewrite followed_by_dot_app_cons in *; exact Elead].
    rewrite !count_non_dot_app. cbn [count_non_dot].
    change (is_dot "."%char) with true. cbv iota.
    rewrite !glyphs_app_dot by reflexivity.
    cbn [glyphs]. change (is_dot "."%char) with true. cbv iota.
    reflexivity.
Qed.

(** X9.  Spaces at the end of a text with fewer than six characters other
    than ['.'] change nothing: the pad is the pattern of the space. *)
Theorem encode_string_trailing_space (str : string) :
  (count_non_dot (list_ascii_of_string str) < 6)%nat ->
  encode_string (str ++ " ") = encode_string str.
Proof.
  intro Hd. unfold encode_string. rewrite list_ascii_of_string_app.
  cbn [list_ascii_of_string].
  set (cs := list_ascii_of_string str) in *.
  destruct (followed_by_dot cs) eqn:Elead.
  - rewrite !encode_chars_leading_dot; [reflexivity|exact Elead|].
    destruct cs; [discriminate|exact Elead].
  - rewrite !encode_chars_glyphs;
      [|exact Elead|destruct cs; [reflexivity|exact Elead]].
    rewrite glyphs_app by reflexivity.
    rewrite count_non_dot_app. cbn [glyphs count_non_dot].
    change (is_dot " "%char) with false. cbv iota.
    cbn [followed_by_dot]. change (encode_char " "%char) with blank.
    rewrite <- app_assoc. cbn [app].
    replace (6 - count_non_dot cs)%nat
      with (S (6 - (count_non_dot cs + 1)))%nat by lia.
    reflexivity.
Qed.

Lemma encode_string_trailing_space_witness :
  (count_non_dot (list_ascii_of_string "1.5") < 6)%nat /\
  encode_string ("1.5" ++ " ") = encode_string "1.5".
Proof.
  assert (H : (count_non_dot (list_ascii_of_string "1.5") < 6)%nat)
    by (simpl; lia).
  split; [exact H|]. exact (encode_string_trailing_space "1.5" H).
Defined.

Lemma upper_same_glyph (ch : ascii) :
  is_dot (upper ch) = is_dot ch /\ encode_char (upper ch) = encode_char ch.
Proof.
  destruct ch as [[] [] [] [] [] [] [] []]; vm_compute; split; reflexivity.
Qed.

Lemma glyphs_map_upper (str : list ascii) :
  glyphs (map upper str) = glyphs str /\
  count_non_dot (map upper str) = count_non_dot str /\
  followed_by_dot (map upper str) = followed_by_dot str.
Proof.
  induction str as [|ch rest (IHg & IHc & IHf)]; [repeat split|].
  cbn [map glyphs count_non_dot followed_by_dot].
  destruct (upper_same_glyph ch) as [Hdot Henc].
  rewrite Hdot, Henc, IHg, IHc, IHf. repeat split.
Qed.

(** X10.  Letter case does not matter to [encode_string]. *)
Theorem encode_string_ignores_case (str : string) :
  encode_string (string_of_list_ascii (map upper (list_ascii_of_string str)))
  = encode_string str.
Proof.
  unfold encode_string. rewrite list_ascii_of_string_of_list_ascii.
  destruct (glyphs_map_upper (list_ascii_of_string str)) as (Hg & Hc & Hf).
  destruct (followed_by_dot (list_ascii_of_string str)) eqn:Elead.
  - now rewrite !encode_chars_leading_dot by congruence.
  - rewrite !encode_chars_glyphs by congruence. now rewrite Hg, Hc.
Qed.

End EncodeStringFurther.

Section ReverseGroups.

Lemma source_index_shift (i : nat) :
  source_index (3 + i) = (3 + source_index i)%nat.
Proof.
  rewrite !source_index_group.
  replace (3 + i)%nat with (i + 1 * 3)%nat by lia.
  rewrite Nat.div_add, Nat.Div0.mod_add by lia. lia.
Qed.

Lemma map_source_index_groups (segments : Segments) :
  forall k : nat,
    length segments = (3 * k)%nat ->
    map (fun i => nth (source_index i) segments 0) (seq 0 (length segments))
    = reverse_groups segments.
Proof.
  intro k. revert segments.
  induction k as [|k IH]; intros segments Hlen.
  - destruct segments; [reflexivity|discriminate].
  - destruct segments as [|a [|b [|c rest]]]; try (simpl in Hlen; lia).
    cbn [length reverse_groups]. cbn [seq map].
    change (nth (source_index 0) (a :: b :: c :: rest) 0) with c.
    change (nth (source_index 1) (a :: b :: c :: rest) 0) with b.
    change (nth (source_index 2) (a :: b :: c :: rest) 0) with a.
    do 3 f_equal.
    rewrite <- (IH rest) by (simpl in Hlen; lia).
    rewrite <- seq_shift, <- seq_shift, <- seq_shift, !map_map.
    apply map_ext. intro i.
    change (S (S (S i))) with (3 + i)%nat.
    rewrite source_index_shift. reflexivity.
Qed.

Lemma reverse_groups_involutive (segments : Segments) :
  forall k : nat,
    (length segments <= k)%nat ->
    reverse_groups (reverse_groups segments) = segments.
Proof.
  intro k. revert segments.
  induction k as [|k IH]; intros segments Hlen.
  - destruct segments; [reflexivity|simpl in Hlen; lia].
  - destruct segments as [|a [|b [|c rest]]]; try reflexivity.
    cbn [reverse_groups]. rewrite IH by (simpl in Hlen; lia). reflexivity.
Qed.

Lemma reverse_groups_permutation (segments : Segments) :
  forall k : nat,
    (length segments <= k)%nat ->
    Permutation segments (reverse_groups segments).
Proof.
  intro k. revert segments.
  induction k as [|k IH]; intros segments Hlen.
  - destruct segments; [constructor|simpl in Hlen; lia].
  - destruct segments as [|a [|b [|c rest]]]; try apply Permutation_refl.
    cbn [reverse_groups].
    apply Permutation_trans with (c :: b :: a :: rest).
    + apply Permutation_trans with (b :: a :: c :: rest);
        [apply perm_swap|].
      apply Permutation_trans with (b :: c :: a :: rest);
        [apply perm_skip, perm_swap|apply perm_swap].
    + do 3 apply perm_skip. apply IH. simpl in Hlen. lia.
Qed.

(** X11.  On a sequence whose length is a multiple of three (up to 768)
    [write] sends the entries in groups of three, each group last entry
    first: every entry goes out exactly once, and applying the same
    regrouping to what was sent gives the sequence back. *)
Theorem write_sends_reversed_groups
    (m : machine) (segments : Segments) (pos : Z) :
  (length segments mod 3 = 0)%nat ->
  (length segments <= 768)%nat ->
  write segments pos m
  = (Ok tt,
     logged m
       (data_command (self m)
          ++ start_condition (self m)
          ++ byte_frame (self m) (Z.lor 0xC0 (Z.min (uint8_t pos) 5))
          ++ wire_bytes (self m) (reverse_groups segments)
          ++ stop_condition (self m)
          ++ display_control (self m))) /\
  Permutation segments (reverse_groups segments) /\
  reverse_groups (reverse_groups segments) = segments.
Proof.
  intros Hmod Hmax. split; [|split].
  - pose proof (runs_write (self m) segments pos) as Hrun.
    rewrite permuted_reads_multiple_of_three in Hrun by assumption.
    rewrite (@map_source_index_groups segments (length segments / 3)) in Hrun.
    + cbn [fst snd] in Hrun. apply (runs_on_machine m Hrun).
    + pose proof (Nat.div_mod_eq (length segments) 3). lia.
  - apply (@reverse_groups_permutation segments (length segments)). lia.
  - apply (@reverse_groups_involutive segments (length segments)). lia.
Qed.

Lemma write_sends_reversed_groups_witness :
  (length [1; 2; 3; 4; 5; 6; 7; 8; 9] mod 3 = 0)%nat /\
  (length [1; 2; 3; 4; 5; 6; 7; 8; 9] <= 768)%nat /\
  reverse_groups [1; 2; 3; 4; 5; 6; 7; 8; 9] = [3; 2; 1; 6; 5; 4; 9; 8; 7] /\
  fst (write [1; 2; 3; 4; 5; 6; 7; 8; 9] 0 (mkMachine (mkTM1637 2 3 7) []))
  = Ok tt.
Proof.
  assert (Hmax : (length [1; 2; 3; 4; 5; 6; 7; 8; 9] <= 768)%nat)
    by (simpl; lia).
  split; [reflexivity|]. split; [exact Hmax|]. split; [reflexivity|].
  rewrite (proj1 (@write_sends_reversed_groups
                    (mkMachine (mkTM1637 2 3 7) [])
                    [1; 2; 3; 4; 5; 6; 7; 8; 9] 0 eq_refl Hmax)).
  reflexivity.
Defined.

End ReverseGroups.

(* ================================================================== *)
(** * Sequences of calls, the state of the bus, [show]                 *)
(* ================================================================== *)

Section Requests.











End Requests.

Section RequestSequences.








End RequestSequences.

Section BusState.

Variable d : TM1637.

Lemma line_level_app (pin : Z) (before events : list sdk_call) :
  line_level pin (before ++ events)
  = fold_left (drive pin) events (line_level pin before).
Proof. unfold line_level. apply fold_left_app. Qed.

Lemma stop_leaves_lines_high (level : option bool) :
  fold_left (drive (clk_ d)) (stop_condition d) level = Some true /\
  fold_left (drive (dio_ d)) (stop_condition d) level = Some true.
Proof.
  unfold stop_condition. cbn [fold_left drive]. rewrite !Z.eqb_refl.
  destruct (dio_ d =? clk_ d), (clk_ d =? dio_ d); split; reflexivity.
Qed.

Lemma byte_leaves_clock_low (b : Z) (level : option bool) :
  fold_left (drive (clk_ d)) (byte_frame d b) level = Some false.
Proof.
  unfold byte_frame. rewrite fold_left_app.
  unfold ack_pulse. cbn [fold_left drive]. now rewrite !Z.eqb_refl.
Qed.

Lemma bytes_leave_clock_low (bytes : list Z) :
  forall level : option bool,
    level = Some false ->
    fold_left (drive (clk_ d)) (wire_bytes d bytes) level = Some false.
Proof.
  induction bytes as [|b bytes IH]; intros level Hlevel; [exact Hlevel|].
  cbn [wire_bytes flat_map]. rewrite fold_left_app.
  apply IH, byte_leaves_clock_low.
Qed.

Lemma display_control_leaves_lines_high (level : option bool) :
  fold_left (drive (clk_ d)) (display_control d) level = Some true /\
  fold_left (drive (dio_ d)) (display_control d) level = Some true.
Proof.
  unfold display_control. rewrite !fold_left_app.
  split; apply stop_leaves_lines_high.
Qed.

Lemma total_delay_app (l1 l2 : list sdk_call) :
  total_delay (l1 ++ l2) = total_delay l1 + total_delay l2.
Proof.
  induction l1 as [|e l1 IH]; [reflexivity|].
  destruct e; cbn [app total_delay]; lia.
Qed.

Lemma total_delay_byte (b : Z) : total_delay (byte_frame d b) = 270.
Proof. reflexivity. Qed.

Lemma total_delay_bytes (bytes : list Z) :
  total_delay (wire_bytes d bytes) = 270 * Z.of_nat (length bytes).
Proof.
  induction bytes as [|b bytes IH]; [reflexivity|].
  cbn [wire_bytes flat_map length]. fold (wire_bytes d bytes).
  rewrite total_delay_app, total_delay_byte, IH. lia.
Qed.

End BusState.

Section AfterWrite.

(** X16.  A call of [write] that returns leaves both lines high (the idle
    state of the bus); a call that throws leaves the clock line low: the
    transaction it began is never closed by a stop condition. *)
Theorem write_leaves_bus (m : machine) (segments : Segments) (pos : Z) :
  match fst (write segments pos m) with
  | Ok _ =>
      line_level (clk_ (self m)) (sdk_log (snd (write segments pos m)))
      = Some true /\
      line_level (dio_ (self m)) (sdk_log (snd (write segments pos m)))
      = Some true
  | OutOfRange =>
      line_level (clk_ (self m)) (sdk_log (snd (write segments pos m)))
      = Some false
  | Undefined => False
  end.
Proof.
  rewrite (runs_on_machine m (runs_write (self m) segments pos)).
  cbn [fst snd sdk_log].
  destruct (permuted_reads segments (length segments) 0) as [bytes normal].
  cbn [fst snd]. destruct normal.
  - rewrite !app_assoc, !line_level_app.
    split; apply display_control_leaves_lines_high.
  - rewrite app_nil_r, !app_assoc, !line_level_app.
    apply bytes_leave_clock_low, byte_leaves_clock_low.
Qed.

(** X17.  The delays a completed [write] asks for: 1020 microseconds for
    the three commands and the address byte, and 270 for each segment
    byte (2640 for six segments). *)
Theorem write_busy_wait (m : machine) (segments : Segments) (pos : Z) :
  (length segments mod 3 = 0)%nat ->
  (length segments <= 768)%nat ->
  total_delay (sdk_log (snd (write segments pos m)))
  = total_delay (sdk_log m) + 1020 + 270 * Z.of_nat (length segments).
Proof.
  intros Hmod Hmax.
  pose proof (runs_write (self m) segments pos) as Hrun.
  rewrite permuted_reads_multiple_of_three in Hrun by assumption.
  cbn [fst snd] in Hrun.
  rewrite (runs_on_machine m Hrun). cbn [snd sdk_log].
  rewrite !total_delay_app, total_delay_bytes, length_map, length_seq.
  change (total_delay (data_command (self m))) with 340.
  change (total_delay (start_condition (self m))) with 40.
  change (total_delay (byte_frame (self m) _)) with 270.
  change (total_delay (stop_condition (self m))) with 30.
  change (total_delay (display_control (self m))) with 340.
  lia.
Qed.

Lemma write_busy_wait_witness :
  (length [0x06; 0x5B; 0x4F; 0x66; 0x6D; 0x7D] mod 3 = 0)%nat /\
  (length [0x06; 0x5B; 0x4F; 0x66; 0x6D; 0x7D] <= 768)%nat /\
  total_delay
    (sdk_log (snd (write [0x06; 0x5B; 0x4F; 0x66; 0x6D; 0x7D] 0
                     (mkMachine (mkTM1637 2 3 7) []))))
  = 2640.
Proof.
  assert (Hmax : (length [0x06; 0x5B; 0x4F; 0x66; 0x6D; 0x7D] <= 768)%nat)
    by (simpl; lia).
  split; [reflexivity|]. split; [exact Hmax|].
  rewrite (@write_busy_wait (mkMachine (mkTM1637 2 3 7) [])
             [0x06; 0x5B; 0x4F; 0x66; 0x6D; 0x7D] 0 eq_refl Hmax).
  reflexivity.
Defined.

End AfterWrite.

Section ShowText.

(** X18.  [show] on a text that does not begin with ['.'] and has at most
    six characters other than ['.']: the call completes, and the six bytes
    sent are the slots of the text (one per character, with the MSB where
    a ['.'] follows) and the blank pads, in groups of three, each group
    last entry first. *)
Theorem show_displays (m : machine) (str : string) (colon : bool) :
  dots_follow_segment 0 (list_ascii_of_string str) = true ->
  (count_non_dot (list_ascii_of_string str) <= 6)%nat ->
  show str colon m
  = (Ok tt,
     logged m
       (data_command (self m)
          ++ start_condition (self m)
          ++ byte_frame (self m) 0xC0
          ++ wire_bytes (self m)
               (reverse_groups
                  (glyphs (list_ascii_of_string str)
                     ++ repeat blank
                          (6 - count_non_dot (list_ascii_of_string str))))
          ++ stop_condition (self m)
          ++ display_control (self m))).
Proof.
  intros Hdots Hd. rewrite dots_follow_segment_head in Hdots.
  apply negb_true_iff in Hdots.
  unfold show, encode_string. rewrite encode_chars_glyphs by exact Hdots.
  set (segments := glyphs _ ++ _).
  assert (Hlen : length segments = 6%nat).
  { subst segments. rewrite length_app, length_glyphs, repeat_length. lia. }
  pose proof (runs_write (self m) segments 0) as Hrun.
  rewrite permuted_reads_multiple_of_three in Hrun
    by (rewrite Hlen; simpl; lia || reflexivity).
  rewrite (@map_source_index_groups segments 2) in Hrun by (rewrite Hlen; lia).
  cbn [fst snd] in Hrun.
  apply (runs_on_machine m).
  eapply runs_events; [|eapply runs_bind; [apply runs_lift|exact Hrun]].
  reflexivity.
Qed.

Lemma show_displays_witness :
  dots_follow_segment 0 (list_ascii_of_string "12.5") = true /\
  (count_non_dot (list_ascii_of_string "12.5") <= 6)%nat /\
  fst (show "12.5" false (mkMachine (mkTM1637 2 3 7) [])) = Ok tt.
Proof.
  assert (Hd : (count_non_dot (list_ascii_of_string "12.5") <= 6)%nat)
    by (simpl; lia).
  split; [reflexivity|]. split; [exact Hd|].
  rewrite (@show_displays (mkMachine (mkTM1637 2 3 7) []) "12.5" false
             eq_refl Hd).
  reflexivity.
Defined.



End ShowText.
